(** * Frontier EVM system instructions: CREATE, RETURN, CALL, CALLCODE

    A shallow embedding of [ethereum/frontier/vm/instructions/system.py]
    and the properties of its four handlers.

    The Python handlers mutate the frame object they receive and may raise;
    they are embedded in a state-and-exception monad over the frame, in
    which the frame survives a raise (Python does not undo the mutations
    made before an exception).  The world state hangs off the frame through
    its environment, as in the source, and the recursive interpreter entry
    points hand back the world state they leave behind, which models the
    single shared [State] object of a call tree. *)

From Stdlib Require Import NArith Lia List Bool.
From Stdlib Require Import Strings.Byte.
From stdpp Require Import base tactics option list countable gmap.

Local Open Scope N_scope.

(** ** Base types *)

(** The integers of [ethereum/base_types.py].  [Uint] is an unbounded
    natural number, [U256] a natural number below [2^256].  Both are
    carried by [N]; the range of a [U256] is enforced where the base types
    enforce it, by the checked operations below, which raise [ValueError]
    instead of wrapping around. *)
Abbreviation Uint := N.
Abbreviation U256 := N.
Abbreviation Bytes := (list byte).
Abbreviation Address := (list byte).
Abbreviation Memory := (list byte).

Definition U256_MAX_VALUE : N := 2 ^ 256 - 1.
Global Arguments U256_MAX_VALUE : simpl never.

Inductive Exception : Type :=
  | StackUnderflowError
  | OutOfGasError
  | ValueError
  | InterpreterError (tag : nat).

Inductive Result (A : Type) : Type :=
  | Ok (a : A)
  | Raise (e : Exception).
Global Arguments Ok {A} a.
Global Arguments Raise {A} e.

(** [U256(n)]: construction of a word fails outside the range. *)
Definition U256_new (n : N) : Result U256 :=
  if n <=? U256_MAX_VALUE then Ok n else Raise ValueError.

(** [a + b] on [U256]: checked, not wrapping. *)
Definition U256_add (a b : U256) : Result U256 := U256_new (a + b).

(** [a - b] on unsigned integers: fails below zero. *)
Definition Uint_sub (a b : Uint) : Result Uint :=
  if a <? b then Raise ValueError else Ok (a - b).

Global Instance byte_eq_dec : EqDecision byte := Byte.byte_eq_dec.
Global Instance byte_countable : Countable byte :=
  inj_countable Byte.to_N Byte.of_N Byte.of_to_N.

Definition byte_of_N (n : N) : byte :=
  match Byte.of_N (n mod 256) with
  | Some b => b
  | None => x00
  end.

(** [n.to_be_bytes] on a fixed number of bytes. *)
Fixpoint to_be_bytes (len : nat) (n : N) : Bytes :=
  match len with
  | O => []
  | S len' => to_be_bytes len' (n / 256) ++ [byte_of_N n]
  end.

Definition to_be_bytes32 (n : U256) : Bytes := to_be_bytes 32 n.

Definition from_be_bytes (b : Bytes) : N :=
  fold_left (fun acc x => acc * 256 + Byte.to_N x) b 0.

(** [U256.from_be_bytes]: at most 32 bytes fit a word. *)
Definition U256_from_be_bytes (b : Bytes) : Result U256 :=
  if (length b <=? 32)%nat then Ok (from_be_bytes b) else Raise ValueError.

(** Modelled from the spec: [to_address] of [utils/address.py].  An address
    is a word truncated to its low 160 bits, that is the last 20 of its 32
    big-endian bytes. *)
Definition to_address (data : U256) : Address := drop 12 (to_be_bytes32 data).

(** ** World state *)

Record Account : Type := mkAccount {
  nonce : Uint;
  balance : U256;
  code : Bytes;
}.

Definition EMPTY_ACCOUNT : Account :=
  {| nonce := 0; balance := 0; code := [] |}.

(** Modelled from the spec: the [State] of [state.py].  The world state is
    a mapping from address to account. *)
Abbreviation State := (gmap Address Account).

(** Modelled from the spec: [get_account] of [state.py].  It is total, an unknown address
    yields the zero-valued account. *)
Definition get_account (state : State) (address : Address) : Account :=
  default EMPTY_ACCOUNT (state !! address).

(** Modelled from the spec: [increment_nonce] of [state.py].  It adds one to the nonce of the
    account at [address], in place. *)
Definition increment_nonce (state : State) (address : Address) : State :=
  let account := get_account state address in
  <[address := {| nonce := nonce account + 1;
                  balance := balance account;
                  code := code account |}]> state.

(** ** Messages and frames *)

Record Environment : Type := mkEnvironment {
  origin : Address;
  state : State;
}.

Record Message : Type := mkMessage {
  caller : Address;
  target : Bytes;
  gas : U256;
  value : U256;
  data : Bytes;
  msg_code : Bytes;
  current_target : Address;
  depth : Uint;
}.

Record Evm : Type := mkEvm {
  pc : Uint;
  stack : list U256;
  memory : Memory;
  gas_left : U256;
  env : Environment;
  running : bool;
  message : Message;
  output : Bytes;
}.

Definition set_stack (s : list U256) (evm : Evm) : Evm :=
  mkEvm (pc evm) s (memory evm) (gas_left evm) (env evm)
        (running evm) (message evm) (output evm).
Definition set_memory (m : Memory) (evm : Evm) : Evm :=
  mkEvm (pc evm) (stack evm) m (gas_left evm) (env evm)
        (running evm) (message evm) (output evm).
Definition set_gas_left (g : U256) (evm : Evm) : Evm :=
  mkEvm (pc evm) (stack evm) (memory evm) g (env evm)
        (running evm) (message evm) (output evm).
Definition set_state (st : State) (evm : Evm) : Evm :=
  mkEvm (pc evm) (stack evm) (memory evm) (gas_left evm)
        (mkEnvironment (origin (env evm)) st)
        (running evm) (message evm) (output evm).
Definition set_running (b : bool) (evm : Evm) : Evm :=
  mkEvm (pc evm) (stack evm) (memory evm) (gas_left evm) (env evm)
        b (message evm) (output evm).
Definition set_output (o : Bytes) (evm : Evm) : Evm :=
  mkEvm (pc evm) (stack evm) (memory evm) (gas_left evm) (env evm)
        (running evm) (message evm) o.

Global Arguments set_stack s !evm /.
Global Arguments set_memory m !evm /.
Global Arguments set_gas_left g !evm /.
Global Arguments set_state st !evm /.
Global Arguments set_running b !evm /.
Global Arguments set_output o !evm /.

(** ** The frame monad *)

Definition M (A : Type) : Type := Evm -> Result A * Evm.

Definition ret {A} (a : A) : M A := fun evm => (Ok a, evm).

Definition bind {A B} (m : M A) (k : A -> M B) : M B :=
  fun evm =>
    match m evm with
    | (Ok a, evm') => k a evm'
    | (Raise e, evm') => (Raise e, evm')
    end.

Definition lift {A} (r : Result A) : M A := fun evm => (r, evm).
Definition modify (f : Evm -> Evm) : M unit := fun evm => (Ok tt, f evm).

Notation "x <- m ;; k" := (bind m (fun x => k))
  (at level 20, m at level 99, k at level 200, format "'[v' x  <-  m  ;; '/' k ']'").
Notation "m ;;; k" := (bind m (fun _ => k))
  (at level 100, k at level 200, right associativity, format "'[v' m  ;;; '/' k ']'").

(** ** Stack, memory and gas primitives *)

(** Modelled from the spec: [pop] and [push] of [vm/stack.py].
    The stack is a LIFO of words, its top at the head of the list; [pop]
    fails with [StackUnderflowError] on an empty stack and [push] always
    succeeds at this layer. *)
Definition pop : M U256 :=
  fun evm =>
    match stack evm with
    | [] => (Raise StackUnderflowError, evm)
    | w :: s => (Ok w, set_stack s evm)
    end.

Definition push (w : U256) : M unit :=
  modify (fun evm => set_stack (w :: stack evm) evm).

(** Modelled from the spec: [subtract_gas] of [vm/gas.py].  It fails with
    [OutOfGasError] when the amount exceeds what is left, otherwise returns
    the difference. *)
Definition subtract_gas (gas_left amount : U256) : Result U256 :=
  if gas_left <? amount then Raise OutOfGasError else Ok (gas_left - amount).

Definition ceil32 (n : N) : N :=
  let r := n mod 32 in if r =? 0 then n else n + 32 - r.

(** Modelled from the spec: [extend_memory] of [vm/memory.py].
    [extend_memory] does nothing for an empty region or a region already
    covered; otherwise it zero-fills up to the end of the region rounded up
    to the word size.  It never shrinks. *)
Definition extend_memory (mem : Memory) (start_position : Uint) (size : U256)
  : Memory :=
  if size =? 0 then mem
  else if start_position + size <=? N.of_nat (length mem) then mem
  else mem ++ replicate
         (N.to_nat (ceil32 (start_position + size)) - length mem)%nat x00.

(** Modelled from the spec: [memory_read_bytes] of [vm/memory.py].  It
    returns the bytes of [start, start + size), as the slice
    [memory[start : start + size]]; empty for a zero size. *)
Definition memory_read_bytes (mem : Memory) (start_position : Uint)
  (size : U256) : Bytes :=
  take (N.to_nat size) (drop (N.to_nat start_position) mem).

(** Modelled from the spec: [memory_write] of [vm/memory.py].  It
    overwrites the bytes from [start_position] on with [value]; nothing
    changes for an empty [value].  It works on memory that already covers
    the region (the handlers extend first, see
    [call_output_region_covered]). *)
Definition memory_write (mem : Memory) (start_position : Uint) (value : Bytes)
  : Memory :=
  list_inserts (N.to_nat start_position) value mem.

(** Modelled from the spec: [GAS_ZERO] of [vm/gas.py].  The base cost of
    RETURN is zero. *)
Definition GAS_ZERO : U256 := 0.

(** The gas-cost table of [vm/gas.py], taken as a parameter: the handlers
    are verified for every such table.  The two cost functions compute on
    words and may raise. *)
Class GasSchedule : Type := {
  GAS_CREATE : U256;
  calculate_gas_extend_memory : Memory -> Uint -> U256 -> Result U256;
  calculate_call_gas_cost : State -> U256 -> Address -> U256 -> Result U256;
  calculate_message_call_gas_stipend : U256 -> U256;
}.

(** The interpreter of [vm/interpreter.py], taken as a parameter: the
    handlers call back into it and are verified for every interpreter.  An entry point either
    returns the child frame or raises, and in both cases leaves the shared
    world state as its second component. *)
Class Interpreter : Type := {
  STACK_DEPTH_LIMIT : Uint;
  process_message : Message -> Environment -> Result Evm * State;
  process_create_message : Message -> Environment -> Result Evm * State;
}.

(** ** Frame-level actions used by the handlers *)

(** [evm.gas_left = subtract_gas(evm.gas_left, amount)] *)
Definition charge_gas (amount : U256) : M unit :=
  fun evm =>
    match subtract_gas (gas_left evm) amount with
    | Ok g => (Ok tt, set_gas_left g evm)
    | Raise e => (Raise e, evm)
    end.

(** [evm.gas_left += amount] *)
Definition add_gas (amount : U256) : M unit :=
  fun evm =>
    match U256_add (gas_left evm) amount with
    | Ok g => (Ok tt, set_gas_left g evm)
    | Raise e => (Raise e, evm)
    end.

(** A call into the interpreter: the world state it leaves behind is the one
    the parent frame sees afterwards, whether it returned or raised. *)
Definition invoke (f : Message -> Environment -> Result Evm * State)
  (child_message : Message) : M Evm :=
  fun evm =>
    let '(r, st) := f child_message (env evm) in (r, set_state st evm).

Definition gets {A} (f : Evm -> A) : M A := fun evm => (Ok (f evm), evm).

(** [calculate_gas_extend_memory(evm.memory, start_position, size)] *)
Definition gas_extend_memory `{GasSchedule} (start_position : Uint)
  (size : U256) : M U256 :=
  fun evm =>
    (calculate_gas_extend_memory (memory evm) start_position size, evm).

(** [calculate_call_gas_cost(evm.env.state, gas, to, value)] *)
Definition call_gas_cost `{GasSchedule} (gas : U256) (to : Address)
  (value : U256) : M U256 :=
  fun evm => (calculate_call_gas_cost (state (env evm)) gas to value, evm).

(** [extend_memory(evm.memory, start_position, size)] *)
Definition extend (start_position : Uint) (size : U256) : M unit :=
  modify (fun evm =>
    set_memory (extend_memory (memory evm) start_position size) evm).

(** Address derivation of [utils/address.py], taken as a parameter: some
    function of the creator and a nonce. *)
Class AddressDerivation : Type := {
  compute_contract_address : Address -> Uint -> Address;
}.

Inductive CallOpcode : Type := CALL | CALLCODE.

(** The address named [to] in the handler: the popped one in CALL, the
    frame's own account in CALLCODE. *)
Definition call_target (op : CallOpcode) (popped own : Address) : Address :=
  match op with
  | CALL => popped
  | CALLCODE => own
  end.

(** Which address a step of CALL or CALLCODE works on. *)
Inductive AddressChoice : Type := PoppedAddress | OwnAccount.

Definition choose (c : AddressChoice) (popped own : Address) : Address :=
  match c with
  | PoppedAddress => popped
  | OwnAccount => own
  end.

(** The address choice that [call_with] takes for the [to] of [op]. *)
Definition choice_of (op : CallOpcode) : AddressChoice :=
  match op with
  | CALL => PoppedAddress
  | CALLCODE => OwnAccount
  end.

(** ** The four handlers *)

Section SystemInstructions.
Context `{GasSchedule} `{Interpreter} `{AddressDerivation}.

Definition create : M unit :=
  endowment <- pop ;;
  memory_start_position <- pop ;;
  memory_size <- pop ;;
  extend_cost <- gas_extend_memory memory_start_position memory_size ;;
  gas_cost <- lift (U256_add GAS_CREATE extend_cost) ;;
  charge_gas gas_cost ;;;
  extend memory_start_position memory_size ;;;
  sender_address <- gets (fun evm => origin (env evm)) ;;
  sender <- gets (fun evm => get_account (state (env evm)) sender_address) ;;
  if balance sender <? endowment then
    push 0
  else
  depth_now <- gets (fun evm => depth (message evm)) ;;
  if STACK_DEPTH_LIMIT <? depth_now + 1 then
    push 0
  else
  call_data <- gets (fun evm =>
    memory_read_bytes (memory evm) memory_start_position memory_size) ;;
  modify (fun evm =>
    set_state (increment_nonce (state (env evm))
                               (current_target (message evm))) evm) ;;;
  creator <- gets (fun evm => current_target (message evm)) ;;
  nonce_now <- gets (fun evm =>
    nonce (get_account (state (env evm)) creator)) ;;
  nonce_before <- lift (Uint_sub nonce_now 1) ;;
  let contract_address := compute_contract_address creator nonce_before in
  gas_left_ <- gets gas_left ;;
  charge_gas gas_left_ ;;;
  child_message <- gets (fun evm =>
    {| caller := current_target (message evm);
       target := [];
       gas := gas_left_;
       value := endowment;
       data := [];
       msg_code := call_data;
       current_target := contract_address;
       depth := depth (message evm) + 1 |}) ;;
  child_evm <- invoke process_create_message child_message ;;
  address_word <-
    lift (U256_from_be_bytes (current_target (message child_evm))) ;;
  push address_word ;;;
  modify (set_gas_left (gas_left child_evm)).

Definition return_ : M unit :=
  memory_start_position <- pop ;;
  memory_size <- pop ;;
  extend_cost <- gas_extend_memory memory_start_position memory_size ;;
  gas_cost <- lift (U256_add GAS_ZERO extend_cost) ;;
  charge_gas gas_cost ;;;
  extend memory_start_position memory_size ;;;
  modify (fun evm =>
    set_output
      (memory_read_bytes (memory evm) memory_start_position memory_size)
      evm) ;;;
  modify (set_running false).

Definition call : M unit :=
  gas <- pop ;;
  to_word <- pop ;;
  let to := to_address to_word in
  value <- pop ;;
  memory_input_start_position <- pop ;;
  memory_input_size <- pop ;;
  memory_output_start_position <- pop ;;
  memory_output_size <- pop ;;
  call_gas_fee <- call_gas_cost gas to value ;;
  message_call_gas_fee <-
    lift (U256_add gas (calculate_message_call_gas_stipend value)) ;;
  charge_gas call_gas_fee ;;;
  gas_input_memory <-
    gas_extend_memory memory_input_start_position memory_input_size ;;
  charge_gas gas_input_memory ;;;
  extend memory_input_start_position memory_input_size ;;;
  gas_output_memory <-
    gas_extend_memory memory_output_start_position memory_output_size ;;
  charge_gas gas_output_memory ;;;
  extend memory_output_start_position memory_output_size ;;;
  call_data <- gets (fun evm =>
    memory_read_bytes (memory evm)
      memory_input_start_position memory_input_size) ;;
  sender_balance <- gets (fun evm =>
    balance (get_account (state (env evm)) (current_target (message evm)))) ;;
  if sender_balance <? value then
    push 0 ;;;
    add_gas message_call_gas_fee
  else
  depth_now <- gets (fun evm => depth (message evm)) ;;
  if STACK_DEPTH_LIMIT <? depth_now + 1 then
    push 0 ;;;
    add_gas message_call_gas_fee
  else
  code <- gets (fun evm => code (get_account (state (env evm)) to)) ;;
  child_message <- gets (fun evm =>
    {| caller := current_target (message evm);
       target := to;
       gas := message_call_gas_fee;
       value := value;
       data := call_data;
       msg_code := code;
       current_target := to;
       depth := depth (message evm) + 1 |}) ;;
  child_evm <- invoke process_message child_message ;;
  push 1 ;;;
  output_length <- lift (U256_new (N.of_nat (length (output child_evm)))) ;;
  let actual_output_size := N.min memory_output_size output_length in
  modify (fun evm =>
    set_memory
      (memory_write (memory evm) memory_output_start_position
         (take (N.to_nat actual_output_size) (output child_evm)))
      evm) ;;;
  add_gas (gas_left child_evm).

Definition callcode : M unit :=
  gas <- pop ;;
  code_word <- pop ;;
  let code_address := to_address code_word in
  value <- pop ;;
  memory_input_start_position <- pop ;;
  memory_input_size <- pop ;;
  memory_output_start_position <- pop ;;
  memory_output_size <- pop ;;
  to <- gets (fun evm => current_target (message evm)) ;;
  call_gas_fee <- call_gas_cost gas to value ;;
  message_call_gas_fee <-
    lift (U256_add gas (calculate_message_call_gas_stipend value)) ;;
  charge_gas call_gas_fee ;;;
  gas_input_memory <-
    gas_extend_memory memory_input_start_position memory_input_size ;;
  charge_gas gas_input_memory ;;;
  extend memory_input_start_position memory_input_size ;;;
  gas_output_memory <-
    gas_extend_memory memory_output_start_position memory_output_size ;;
  charge_gas gas_output_memory ;;;
  extend memory_output_start_position memory_output_size ;;;
  call_data <- gets (fun evm =>
    memory_read_bytes (memory evm)
      memory_input_start_position memory_input_size) ;;
  sender_balance <- gets (fun evm =>
    balance (get_account (state (env evm)) (current_target (message evm)))) ;;
  if sender_balance <? value then
    push 0 ;;;
    add_gas message_call_gas_fee
  else
  depth_now <- gets (fun evm => depth (message evm)) ;;
  if STACK_DEPTH_LIMIT <? depth_now + 1 then
    push 0 ;;;
    add_gas message_call_gas_fee
  else
  code <- gets (fun evm =>
    code (get_account (state (env evm)) code_address)) ;;
  child_message <- gets (fun evm =>
    {| caller := current_target (message evm);
       target := to;
       gas := message_call_gas_fee;
       value := value;
       data := call_data;
       msg_code := code;
       current_target := to;
       depth := depth (message evm) + 1 |}) ;;
  child_evm <- invoke process_message child_message ;;
  push 1 ;;;
  output_length <- lift (U256_new (N.of_nat (length (output child_evm)))) ;;
  let actual_output_size := N.min memory_output_size output_length in
  modify (fun evm =>
    set_memory
      (memory_write (memory evm) memory_output_start_position
         (take (N.to_nat actual_output_size) (output child_evm)))
      evm) ;;;
  add_gas (gas_left child_evm).

(** *** CALL and CALLCODE as one handler

    The two handlers use an address in three places: the address the call
    fee is computed for, the address whose code runs, and the address the
    child message is sent to.  [call_with] is the handler with each of the
    three chosen between the popped address and the frame's own account. *)

Definition call_with (fee_of code_of message_to : AddressChoice) : M unit :=
  gas <- pop ;;
  address_word <- pop ;;
  let popped := to_address address_word in
  value <- pop ;;
  memory_input_start_position <- pop ;;
  memory_input_size <- pop ;;
  memory_output_start_position <- pop ;;
  memory_output_size <- pop ;;
  own <- gets (fun evm => current_target (message evm)) ;;
  call_gas_fee <- call_gas_cost gas (choose fee_of popped own) value ;;
  message_call_gas_fee <-
    lift (U256_add gas (calculate_message_call_gas_stipend value)) ;;
  charge_gas call_gas_fee ;;;
  gas_input_memory <-
    gas_extend_memory memory_input_start_position memory_input_size ;;
  charge_gas gas_input_memory ;;;
  extend memory_input_start_position memory_input_size ;;;
  gas_output_memory <-
    gas_extend_memory memory_output_start_position memory_output_size ;;
  charge_gas gas_output_memory ;;;
  extend memory_output_start_position memory_output_size ;;;
  call_data <- gets (fun evm =>
    memory_read_bytes (memory evm)
      memory_input_start_position memory_input_size) ;;
  sender_balance <- gets (fun evm =>
    balance (get_account (state (env evm)) (current_target (message evm)))) ;;
  if sender_balance <? value then
    push 0 ;;;
    add_gas message_call_gas_fee
  else
  depth_now <- gets (fun evm => depth (message evm)) ;;
  if STACK_DEPTH_LIMIT <? depth_now + 1 then
    push 0 ;;;
    add_gas message_call_gas_fee
  else
  code <- gets (fun evm =>
    code (get_account (state (env evm)) (choose code_of popped own))) ;;
  child_message <- gets (fun evm =>
    {| caller := current_target (message evm);
       target := choose message_to popped own;
       gas := message_call_gas_fee;
       value := value;
       data := call_data;
       msg_code := code;
       current_target := choose message_to popped own;
       depth := depth (message evm) + 1 |}) ;;
  child_evm <- invoke process_message child_message ;;
  push 1 ;;;
  output_length <- lift (U256_new (N.of_nat (length (output child_evm)))) ;;
  let actual_output_size := N.min memory_output_size output_length in
  modify (fun evm =>
    set_memory
      (memory_write (memory evm) memory_output_start_position
         (take (N.to_nat actual_output_size) (output child_evm)))
      evm) ;;;
  add_gas (gas_left child_evm).

(** CALLCODE as the specification words it: CALL, with the code read from
    the popped address and the child message sent to the own account. *)
Definition callcode_as_specified : M unit :=
  call_with PoppedAddress PoppedAddress OwnAccount.

(** *** The two call opcodes side by side *)

Definition run_call (op : CallOpcode) : M unit :=
  match op with
  | CALL => call
  | CALLCODE => callcode
  end.

(** *** Vocabulary of the statements

    Names for the frames and messages that appear while a handler runs. *)

(** The call fee for [to], the gas of the child message and the two
    memory-extension fees are all computed, and the three fees are paid
    for out of the gas of [evm]. *)
Record CallCharged (to : Address) (evm : Evm)
  (gas value in_start in_size out_start out_size : N)
  (call_gas_fee gas_input_memory gas_output_memory : N) : Prop := {
  charged_call_fee :
    calculate_call_gas_cost (state (env evm)) gas to value
    = Ok call_gas_fee;
  charged_message_fee :
    gas + calculate_message_call_gas_stipend value <= U256_MAX_VALUE;
  charged_call_fee_paid : call_gas_fee <= gas_left evm;
  charged_input :
    calculate_gas_extend_memory (memory evm) in_start in_size
    = Ok gas_input_memory;
  charged_input_paid : gas_input_memory <= gas_left evm - call_gas_fee;
  charged_output :
    calculate_gas_extend_memory
      (extend_memory (memory evm) in_start in_size) out_start out_size
    = Ok gas_output_memory;
  charged_output_paid :
    gas_output_memory <= gas_left evm - call_gas_fee - gas_input_memory;
}.

(** The frame once the seven arguments are popped, the three fees paid
    and the memory extended for both regions. *)
Definition charged_frame (evm : Evm) (rest : list U256)
  (in_start in_size out_start out_size : N)
  (call_gas_fee gas_input_memory gas_output_memory : N) : Evm :=
  set_memory
    (extend_memory (extend_memory (memory evm) in_start in_size)
       out_start out_size)
    (set_gas_left
       (gas_left evm - call_gas_fee - gas_input_memory - gas_output_memory)
       (set_stack rest evm)).

(** The child message of a call out of [frame]. *)
Definition call_child_message (frame : Evm) (message_to code_from : Address)
  (message_call_gas_fee value : U256) (in_start in_size : N) : Message :=
  {| caller := current_target (message frame);
     target := message_to;
     gas := message_call_gas_fee;
     value := value;
     data := memory_read_bytes (memory frame) in_start in_size;
     msg_code := code (get_account (state (env frame)) code_from);
     current_target := message_to;
     depth := depth (message frame) + 1 |}.

(** What CALL and CALLCODE do with the outcome [r] of the interpreter,
    from the charged frame on. *)
Definition call_resume (frame : Evm) (out_start out_size : N)
  (r : Result Evm * State) : Result unit * Evm :=
  match r with
  | (Raise e, st) => (Raise e, set_state st frame)
  | (Ok child_evm, st) =>
      (push 1 ;;;
       output_length <-
         lift (U256_new (N.of_nat (length (output child_evm)))) ;;
       let actual_output_size := N.min out_size output_length in
       modify (fun evm =>
         set_memory
           (memory_write (memory evm) out_start
              (take (N.to_nat actual_output_size) (output child_evm)))
           evm) ;;;
       add_gas (gas_left child_evm)) (set_state st frame)
  end.

(** The parent frame with the result of [child_evm] folded in. *)
Definition merged_frame (frame child_evm : Evm) (st : State)
  (out_start out_size : N) : Evm :=
  set_gas_left (gas_left frame + gas_left child_evm)
    (set_memory
       (memory_write (memory frame) out_start
          (take (N.to_nat
                   (N.min out_size (N.of_nat (length (output child_evm)))))
             (output child_evm)))
       (set_stack (1 :: stack frame) (set_state st frame))).

(** The creation fee and the memory-extension fee are computed, fit a
    word together, and are paid for out of the gas of [evm]. *)
Record CreateCharged (evm : Evm) (start size extend_cost : N) : Prop := {
  created_extend_cost :
    calculate_gas_extend_memory (memory evm) start size = Ok extend_cost;
  created_cost_word : GAS_CREATE + extend_cost <= U256_MAX_VALUE;
  created_cost_paid : GAS_CREATE + extend_cost <= gas_left evm;
}.

(** The frame once the three arguments are popped, the fee paid and the
    memory extended. *)
Definition create_charged_frame (evm : Evm) (rest : list U256)
  (start size extend_cost : N) : Evm :=
  set_memory (extend_memory (memory evm) start size)
    (set_gas_left (gas_left evm - (GAS_CREATE + extend_cost))
       (set_stack rest evm)).

(** The parent frame while the creation runs: nonce incremented in the
    world state, all gas handed over. *)
Definition create_suspended_frame (frame : Evm) : Evm :=
  set_gas_left 0
    (set_state
       (increment_nonce (state (env frame)) (current_target (message frame)))
       frame).

(** The child message of a creation out of [frame], the charged frame
    before the nonce is incremented. *)
Definition create_child_message (frame : Evm) (endowment start size : N)
  : Message :=
  {| caller := current_target (message frame);
     target := [];
     gas := gas_left frame;
     value := endowment;
     data := [];
     msg_code := memory_read_bytes (memory frame) start size;
     current_target :=
       compute_contract_address (current_target (message frame))
         (nonce (get_account (state (env frame))
                   (current_target (message frame))));
     depth := depth (message frame) + 1 |}.

(** What CREATE does with the outcome [r] of the interpreter, from the
    suspended frame on. *)
Definition create_resume (suspended : Evm) (r : Result Evm * State)
  : Result unit * Evm :=
  match r with
  | (Raise e, st) => (Raise e, set_state st suspended)
  | (Ok child_evm, st) =>
      (address_word <-
         lift (U256_from_be_bytes (current_target (message child_evm))) ;;
       push address_word ;;;
       modify (set_gas_left (gas_left child_evm))) (set_state st suspended)
  end.

(** An action keeps the halting state of the frame: its [running] flag
    and its [output] buffer, whether the action returns or raises. *)
Definition keeps_halt_state {A} (m : M A) : Prop :=
  forall evm,
    running (m evm).2 = running evm /\ output (m evm).2 = output evm.

End SystemInstructions.

(** ** A sample gas table, interpreter and world

    Concrete collaborators on which the handlers can be run. *)

Module Sample.

Definition memory_cost (size_in_bytes : N) : N :=
  let words := ceil32 size_in_bytes / 32 in
  words * 3 + words * words / 512.

(** Memory is paid for by the word; a call pays a base fee, the gas it
    forwards, a surcharge for an account that does not exist yet and one
    for a transfer; a transfer grants a stipend. *)
Definition gas_table : GasSchedule := {|
  GAS_CREATE := 32000;
  calculate_gas_extend_memory mem start size :=
    if size =? 0 then Ok 0
    else
      let before := ceil32 (N.of_nat (length mem)) in
      let after := ceil32 (start + size) in
      if after <=? before then Ok 0
      else U256_new (memory_cost after - memory_cost before);
  calculate_call_gas_cost st gas to value :=
    U256_new (40 + gas
              + (if st !! to is Some _ then 0 else 25000)
              + (if value =? 0 then 0 else 9000));
  calculate_message_call_gas_stipend value :=
    if value =? 0 then 0 else 2300;
|}.

(** A child frame that spends nothing and returns its call data. *)
Definition child_frame (msg : Message) (e : Environment) : Evm :=
  {| pc := 0; stack := []; memory := []; gas_left := gas msg; env := e;
     running := false; message := msg; output := data msg |}.

Definition echo : Interpreter := {|
  STACK_DEPTH_LIMIT := 1024;
  process_message msg e := (Ok (child_frame msg e), state e);
  process_create_message msg e := (Ok (child_frame msg e), state e);
|}.

(** A child frame that spends nothing and returns the code it ran. *)
Definition code_frame (msg : Message) (e : Environment) : Evm :=
  {| pc := 0; stack := []; memory := []; gas_left := gas msg; env := e;
     running := false; message := msg; output := msg_code msg |}.

Definition code_echo : Interpreter := {|
  STACK_DEPTH_LIMIT := 1024;
  process_message msg e := (Ok (code_frame msg e), state e);
  process_create_message msg e := (Ok (code_frame msg e), state e);
|}.

(** An interpreter that lets a fatal condition through. *)
Definition failing : Interpreter := {|
  STACK_DEPTH_LIMIT := 1024;
  process_message msg e := (Raise (InterpreterError 0), state e);
  process_create_message msg e := (Raise (InterpreterError 0), state e);
|}.

Definition addresses : AddressDerivation := {|
  compute_contract_address creator n :=
    to_address (from_be_bytes creator * 256 + n + 1);
|}.

Definition alice : Address := to_address 10.
Definition bob : Address := to_address 11.

Definition world : State :=
  <[alice := {| nonce := 7; balance := 100; code := [] |}]>
    (<[bob := {| nonce := 0; balance := 3; code := [x60] |}]> ∅).

(** A frame of [who], at depth [d], in a transaction sent by [alice]. *)
Definition frame (stk : list U256) (who : Address) (d : N) : Evm :=
  {| pc := 0; stack := stk; memory := []; gas_left := 100000;
     env := {| origin := alice; state := world |};
     running := true;
     message := {| caller := alice; target := who; gas := 100000;
                   value := 0; data := []; msg_code := [];
                   current_target := who; depth := d |};
     output := [] |}.

(** [bob], who holds 3, tries to send 5 to himself. *)
Definition poor_call : Evm := frame [1000; 11; 5; 0; 0; 0; 0; 77] bob 0.

(** [bob] sends 2 to himself, with four bytes of call data read from
    memory at 0 and two bytes of output expected at 32. *)
Definition paid_call (d : N) : Evm :=
  frame [1000; 11; 2; 0; 4; 32; 2; 77] bob d.

(** [bob] calls the code of an account that does not exist. *)
Definition borrowed_code_call : Evm :=
  frame [1000; 12; 0; 0; 0; 0; 0; 77] bob 0.

(** [bob] creates a contract out of four bytes of memory; [alice], the
    origin, holds 100. *)
Definition creation (endowment d : N) : Evm :=
  frame [endowment; 0; 4; 77] bob d.

Definition returning : Evm := frame [0; 4; 77] bob 0.

End Sample.
(** ** An interpreter that runs borrowed code *)

Definition set_msg_code (c : Bytes) (msg : Message) : Message :=
  {| caller := caller msg;
     target := target msg;
     gas := gas msg;
     value := value msg;
     data := data msg;
     msg_code := c;
     current_target := current_target msg;
     depth := depth msg |}.

(** The interpreter [I], made to run every message on the code of the
    account at [code_address] instead of the code the message carries. *)
Definition with_code_of (code_address : Address) (I : Interpreter)
  : Interpreter :=
  {| STACK_DEPTH_LIMIT := @STACK_DEPTH_LIMIT I;
     process_message msg e :=
       @process_message I
         (set_msg_code (code (get_account (state e) code_address)) msg) e;
     process_create_message := @process_create_message I |}.

(** ** Relations between a frame and what an action leaves of it *)

(** An action takes every frame to one related to it by [R], whether it
    returns or raises. *)
Definition preserves {A} (R : Evm -> Evm -> Prop) (m : M A) : Prop :=
  forall evm, R evm (m evm).2.

(** The second frame is the first one as far as its identity goes: same
    program counter, same message, same origin of the transaction. *)
Definition same_identity (a b : Evm) : Prop :=
  pc b = pc a /\ message b = message a /\ origin (env b) = origin (env a).

(** The memory of the second frame is at least as long as that of the
    first. *)
Definition memory_not_shrunk (a b : Evm) : Prop :=
  (length (memory a) <= length (memory b))%nat.


(** * Properties *)

(** ** Memory *)

Lemma ceil32_ge (n : N) : n <= ceil32 n.
Proof.
  unfold ceil32. pose proof (N.mod_upper_bound n 32).
  destruct (N.eqb_spec (n mod 32) 0); lia.
Qed.

Lemma extend_memory_grows (mem : Memory) (start_position size : N) :
  exists k : nat, extend_memory mem start_position size = mem ++ replicate k x00.
Proof.
  unfold extend_memory.
  destruct (size =? 0); [exists 0%nat; simpl; by rewrite app_nil_r |].
  destruct (start_position + size <=? N.of_nat (length mem));
    [exists 0%nat; simpl; by rewrite app_nil_r |].
  eauto.
Qed.

Lemma extend_memory_length (mem : Memory) (start_position size : N) :
  (length mem <= length (extend_memory mem start_position size))%nat.
Proof.
  destruct (extend_memory_grows mem start_position size) as [k ->].
  rewrite length_app. lia.
Qed.

Lemma extend_memory_covers (mem : Memory) (start_position size : N) :
  size <> 0 ->
  start_position + size
    <= N.of_nat (length (extend_memory mem start_position size)).
Proof.
  intros Hsize. unfold extend_memory.
  destruct (N.eqb_spec size 0); [done |].
  destruct (N.leb_spec (start_position + size) (N.of_nat (length mem)));
    [done |].
  rewrite length_app, length_replicate.
  pose proof (ceil32_ge (start_position + size)). lia.
Qed.

Lemma extend_memory_idempotent (mem : Memory) (start_position size : N) :
  extend_memory (extend_memory mem start_position size) start_position size
  = extend_memory mem start_position size.
Proof.
  destruct (N.eqb_spec size 0) as [-> | Hsize]; [done |].
  pose proof (extend_memory_covers mem start_position size Hsize) as Hc.
  unfold extend_memory at 1.
  destruct (N.eqb_spec size 0); [done |].
  destruct (N.leb_spec (start_position + size)
              (N.of_nat (length (extend_memory mem start_position size))));
    [done | lia].
Qed.

Lemma memory_read_bytes_empty (mem : Memory) (start_position : N) :
  memory_read_bytes mem start_position 0 = [].
Proof. done. Qed.

Lemma memory_read_bytes_length (mem : Memory) (start_position size : N) :
  start_position + size <= N.of_nat (length mem) ->
  length (memory_read_bytes mem start_position size) = N.to_nat size.
Proof.
  intros Hc. unfold memory_read_bytes.
  rewrite length_take, length_drop. lia.
Qed.

Lemma memory_read_bytes_lookup (mem : Memory) (start_position size : N)
  (i : nat) :
  (i < N.to_nat size)%nat ->
  memory_read_bytes mem start_position size !! i
  = mem !! (N.to_nat start_position + i)%nat.
Proof.
  intros Hi. unfold memory_read_bytes.
  rewrite lookup_take_lt by done. by rewrite lookup_drop.
Qed.

Lemma memory_write_length (mem : Memory) (start_position : N) (v : Bytes) :
  length (memory_write mem start_position v) = length mem.
Proof. apply length_inserts. Qed.

Lemma memory_write_inside (mem : Memory) (start_position : N) (v : Bytes)
  (i : nat) :
  (N.to_nat start_position + length v <= length mem)%nat ->
  (i < length v)%nat ->
  memory_write mem start_position v !! (N.to_nat start_position + i)%nat
  = v !! i.
Proof.
  intros Hc Hi. unfold memory_write.
  rewrite list_lookup_inserts by lia. f_equal. lia.
Qed.

Lemma memory_write_outside (mem : Memory) (start_position : N) (v : Bytes)
  (j : nat) :
  (j < N.to_nat start_position
   \/ N.to_nat start_position + length v <= j)%nat ->
  memory_write mem start_position v !! j = mem !! j.
Proof.
  intros [Hj | Hj]; unfold memory_write.
  - by apply list_lookup_inserts_lt.
  - by apply list_lookup_inserts_ge.
Qed.

(** ** World state *)

Lemma get_account_increment_nonce (st : State) (address : Address) :
  get_account (increment_nonce st address) address
  = {| nonce := nonce (get_account st address) + 1;
       balance := balance (get_account st address);
       code := code (get_account st address) |}.
Proof.
  unfold increment_nonce, get_account at 1. by rewrite lookup_insert_eq.
Qed.

Lemma get_account_increment_nonce_other (st : State) (address other : Address) :
  other <> address ->
  get_account (increment_nonce st address) other = get_account st other.
Proof.
  intros Hne. unfold increment_nonce, get_account at 1.
  by rewrite lookup_insert_ne.
Qed.

(** ** Running the handlers *)

Ltac unfold_frame_monad :=
  unfold bind, pop, gets, lift, charge_gas, add_gas, gas_extend_memory,
    call_gas_cost,
    extend, push, modify, invoke, subtract_gas, U256_add, U256_new, Uint_sub.

Ltac test_true H := simpl; rewrite (proj2 (N.leb_le _ _) H); simpl.
Ltac test_paid H := simpl; rewrite (proj2 (N.ltb_ge _ _) H); simpl.

Section Handlers.
Context `{GasSchedule} `{Interpreter} `{AddressDerivation}.

Lemma call_eq evm :
  call evm = call_with PoppedAddress PoppedAddress PoppedAddress evm.
Proof. reflexivity. Qed.

Lemma callcode_eq evm :
  callcode evm = call_with OwnAccount PoppedAddress OwnAccount evm.
Proof. reflexivity. Qed.

Lemma run_call_eq op evm :
  run_call op evm
  = call_with (choice_of op) PoppedAddress (choice_of op) evm.
Proof. by destruct op. Qed.

Lemma choose_choice_of op popped own :
  choose (choice_of op) popped own = call_target op popped own.
Proof. by destruct op. Qed.

Lemma add_gas_ok amount evm :
  gas_left evm + amount <= U256_MAX_VALUE ->
  add_gas amount evm = (Ok tt, set_gas_left (gas_left evm + amount) evm).
Proof.
  intros Hle. unfold add_gas, U256_add, U256_new.
  by rewrite (proj2 (N.leb_le _ _) Hle).
Qed.

(** *** CALL and CALLCODE *)

Ltac call_prefix Hc :=
  destruct Hc as [Hfee Hmsg Hfee_le Hin Hin_le Hout Hout_le];
  simpl in *;
  unfold call_with, charged_frame, call_child_message, merged_frame;
  unfold_frame_monad; simpl;
  rewrite Hfee; simpl; test_true Hmsg; test_paid Hfee_le;
  rewrite Hin; simpl; test_paid Hin_le;
  rewrite Hout; simpl; test_paid Hout_le.

Lemma call_with_local_failure fee_of code_of message_to evm
  gas address_word value in_start in_size out_start out_size rest
  call_gas_fee gas_input_memory gas_output_memory :
  stack evm = gas :: address_word :: value :: in_start :: in_size
              :: out_start :: out_size :: rest ->
  CallCharged
    (choose fee_of (to_address address_word) (current_target (message evm)))
    evm gas value in_start in_size out_start out_size
    call_gas_fee gas_input_memory gas_output_memory ->
  balance (get_account (state (env evm)) (current_target (message evm)))
    < value
  \/ STACK_DEPTH_LIMIT < depth (message evm) + 1 ->
  call_with fee_of code_of message_to evm
  = add_gas (gas + calculate_message_call_gas_stipend value)
      (set_stack (0 :: rest)
         (charged_frame evm rest in_start in_size out_start out_size
            call_gas_fee gas_input_memory gas_output_memory)).
Proof.
  intros Hstack Hc Hfail.
  destruct evm as [pc0 stk mem g e run msg out]; simpl in Hstack; subst stk.
  call_prefix Hc.
  destruct (balance (get_account (state e) (current_target msg)) <? value)
    eqn:Hbal; [reflexivity |].
  destruct Hfail as [Hlt | Hdepth].
  - apply N.ltb_lt in Hlt. congruence.
  - apply N.ltb_lt in Hdepth. simpl. rewrite Hdepth. reflexivity.
Qed.

Lemma call_with_child_raises fee_of code_of message_to evm
  gas address_word value in_start in_size out_start out_size rest
  call_gas_fee gas_input_memory gas_output_memory e st :
  let popped := to_address address_word in
  let own := current_target (message evm) in
  let frame := charged_frame evm rest in_start in_size out_start out_size
                 call_gas_fee gas_input_memory gas_output_memory in
  stack evm = gas :: address_word :: value :: in_start :: in_size
              :: out_start :: out_size :: rest ->
  CallCharged (choose fee_of popped own)
    evm gas value in_start in_size out_start out_size
    call_gas_fee gas_input_memory gas_output_memory ->
  value <= balance (get_account (state (env evm)) own) ->
  depth (message evm) + 1 <= STACK_DEPTH_LIMIT ->
  process_message
    (call_child_message frame (choose message_to popped own)
       (choose code_of popped own)
       (gas + calculate_message_call_gas_stipend value) value
       in_start in_size)
    (env evm) = (Raise e, st) ->
  call_with fee_of code_of message_to evm = (Raise e, set_state st frame).
Proof.
  intros popped own frame Hstack Hc Hbal Hdepth Hchild.
  subst popped own frame.
  destruct evm as [pc0 stk mem g en run msg out]; simpl in Hstack; subst stk.
  call_prefix Hc.
  test_paid Hbal. test_paid Hdepth.
  unfold call_child_message in Hchild; simpl in Hchild.
  rewrite Hchild. reflexivity.
Qed.

Lemma call_with_child_returns fee_of code_of message_to evm
  gas address_word value in_start in_size out_start out_size rest
  call_gas_fee gas_input_memory gas_output_memory child_evm st :
  let popped := to_address address_word in
  let own := current_target (message evm) in
  let frame := charged_frame evm rest in_start in_size out_start out_size
                 call_gas_fee gas_input_memory gas_output_memory in
  stack evm = gas :: address_word :: value :: in_start :: in_size
              :: out_start :: out_size :: rest ->
  CallCharged (choose fee_of popped own)
    evm gas value in_start in_size out_start out_size
    call_gas_fee gas_input_memory gas_output_memory ->
  value <= balance (get_account (state (env evm)) own) ->
  depth (message evm) + 1 <= STACK_DEPTH_LIMIT ->
  process_message
    (call_child_message frame (choose message_to popped own)
       (choose code_of popped own)
       (gas + calculate_message_call_gas_stipend value) value
       in_start in_size)
    (env evm) = (Ok child_evm, st) ->
  N.of_nat (length (output child_evm)) <= U256_MAX_VALUE ->
  gas_left frame + gas_left child_evm <= U256_MAX_VALUE ->
  call_with fee_of code_of message_to evm
  = (Ok tt, merged_frame frame child_evm st out_start out_size).
Proof.
  intros popped own frame Hstack Hc Hbal Hdepth Hchild Hlen Hgas.
  subst popped own frame.
  destruct evm as [pc0 stk mem g en run msg out]; simpl in Hstack; subst stk.
  unfold charged_frame in Hgas; simpl in Hgas.
  call_prefix Hc.
  test_paid Hbal. test_paid Hdepth.
  unfold call_child_message in Hchild; simpl in Hchild.
  rewrite Hchild; simpl.
  test_true Hlen. test_true Hgas. reflexivity.
Qed.

(** The bytes the merge writes lie inside the extended memory. *)
Lemma call_output_region_covered (mem : Memory)
  (out_start out_size : N) (child_output : Bytes) :
  let written :=
    take (N.to_nat (N.min out_size (N.of_nat (length child_output))))
      child_output in
  (length written
   = N.to_nat (N.min out_size (N.of_nat (length child_output))))%nat
  /\ (written = []
      \/ (N.to_nat out_start + length written
          <= length (extend_memory mem out_start out_size))%nat).
Proof.
  intros written. subst written. split.
  - rewrite length_take. lia.
  - destruct (N.eqb_spec out_size 0) as [-> | Hsize].
    + left. by rewrite N.min_0_l.
    + right. rewrite length_take.
      pose proof (extend_memory_covers mem out_start out_size Hsize). lia.
Qed.

(** *** CREATE *)

Ltac create_prefix Hc :=
  destruct Hc as [Hext Hword Hpaid];
  simpl in *;
  unfold create, create_charged_frame, create_suspended_frame,
    create_child_message;
  unfold_frame_monad; simpl;
  rewrite Hext; simpl; test_true Hword; test_paid Hpaid.

Lemma create_local_failure evm endowment start size rest extend_cost :
  stack evm = endowment :: start :: size :: rest ->
  CreateCharged evm start size extend_cost ->
  balance (get_account (state (env evm)) (origin (env evm))) < endowment
  \/ STACK_DEPTH_LIMIT < depth (message evm) + 1 ->
  create evm
  = (Ok tt,
     set_stack (0 :: rest)
       (create_charged_frame evm rest start size extend_cost)).
Proof.
  intros Hstack Hc Hfail.
  destruct evm as [pc0 stk mem g e run msg out]; simpl in Hstack; subst stk.
  create_prefix Hc.
  destruct (balance (get_account (state e) (origin e)) <? endowment)
    eqn:Hbal; [reflexivity |].
  destruct Hfail as [Hlt | Hdepth].
  - apply N.ltb_lt in Hlt. congruence.
  - apply N.ltb_lt in Hdepth. simpl. rewrite Hdepth. reflexivity.
Qed.

Ltac create_recursion Hbal Hdepth :=
  test_paid Hbal; test_paid Hdepth;
  rewrite get_account_increment_nonce; simpl;
  rewrite (proj2 (N.ltb_ge _ 1)) by lia; simpl;
  rewrite N.add_sub, N.ltb_irrefl, N.sub_diag; simpl.

Lemma create_child_raises evm endowment start size rest extend_cost e st :
  let frame := create_charged_frame evm rest start size extend_cost in
  stack evm = endowment :: start :: size :: rest ->
  CreateCharged evm start size extend_cost ->
  endowment <= balance (get_account (state (env evm)) (origin (env evm))) ->
  depth (message evm) + 1 <= STACK_DEPTH_LIMIT ->
  process_create_message
    (create_child_message frame endowment start size)
    (env (create_suspended_frame frame)) = (Raise e, st) ->
  create evm = (Raise e, set_state st (create_suspended_frame frame)).
Proof.
  intros frame Hstack Hc Hbal Hdepth Hchild. subst frame.
  destruct evm as [pc0 stk mem g en run msg out]; simpl in Hstack; subst stk.
  unfold create_child_message, create_suspended_frame, create_charged_frame
    in Hchild; simpl in Hchild.
  create_prefix Hc.
  create_recursion Hbal Hdepth.
  rewrite Hchild. reflexivity.
Qed.

Lemma create_child_returns evm endowment start size rest extend_cost
  child_evm st :
  let frame := create_charged_frame evm rest start size extend_cost in
  stack evm = endowment :: start :: size :: rest ->
  CreateCharged evm start size extend_cost ->
  endowment <= balance (get_account (state (env evm)) (origin (env evm))) ->
  depth (message evm) + 1 <= STACK_DEPTH_LIMIT ->
  process_create_message
    (create_child_message frame endowment start size)
    (env (create_suspended_frame frame)) = (Ok child_evm, st) ->
  create evm
  = match U256_from_be_bytes (current_target (message child_evm)) with
    | Ok address_word =>
        (Ok tt,
         set_gas_left (gas_left child_evm)
           (set_stack (address_word :: rest)
              (set_state st (create_suspended_frame frame))))
    | Raise e => (Raise e, set_state st (create_suspended_frame frame))
    end.
Proof.
  intros frame Hstack Hc Hbal Hdepth Hchild. subst frame.
  destruct evm as [pc0 stk mem g en run msg out]; simpl in Hstack; subst stk.
  unfold create_child_message, create_suspended_frame, create_charged_frame
    in Hchild; simpl in Hchild.
  create_prefix Hc.
  create_recursion Hbal Hdepth.
  rewrite Hchild; cbv beta iota.
  destruct (U256_from_be_bytes (current_target (message child_evm)));
    reflexivity.
Qed.

(** *** RETURN *)

Lemma return_halts evm start size rest extend_cost :
  stack evm = start :: size :: rest ->
  calculate_gas_extend_memory (memory evm) start size = Ok extend_cost ->
  extend_cost <= U256_MAX_VALUE ->
  extend_cost <= gas_left evm ->
  return_ evm
  = (Ok tt,
     set_running false
       (set_output
          (memory_read_bytes (extend_memory (memory evm) start size)
             start size)
          (set_memory (extend_memory (memory evm) start size)
             (set_gas_left (gas_left evm - extend_cost)
                (set_stack rest evm))))).
Proof.
  intros Hstack Hext Hword Hpaid.
  destruct evm as [pc0 stk mem g en run msg out]; simpl in *; subst stk.
  unfold return_, GAS_ZERO. unfold_frame_monad; simpl.
  rewrite Hext; simpl. rewrite !N.add_0_l.
  test_true Hword. test_paid Hpaid. reflexivity.
Qed.

(** *** What no handler but RETURN touches *)

Lemma keeps_bind {A B} (m : M A) (k : A -> M B) :
  keeps_halt_state m -> (forall a, keeps_halt_state (k a)) ->
  keeps_halt_state (bind m k).
Proof.
  intros Hm Hk evm. unfold bind.
  destruct (Hm evm) as [Hr Ho]. destruct (m evm) as [[a | e] evm'];
    simpl in *.
  - destruct (Hk a evm') as [Hr' Ho']. split; congruence.
  - done.
Qed.

Lemma keeps_pop : keeps_halt_state pop.
Proof. intros evm. unfold pop. by destruct (stack evm). Qed.

Lemma keeps_push w : keeps_halt_state (push w).
Proof. done. Qed.

Lemma keeps_gets {A} (f : Evm -> A) : keeps_halt_state (gets f).
Proof. done. Qed.

Lemma keeps_lift {A} (r : Result A) : keeps_halt_state (lift r).
Proof. done. Qed.

Lemma keeps_charge_gas amount : keeps_halt_state (charge_gas amount).
Proof.
  intros evm. unfold charge_gas.
  by destruct (subtract_gas (gas_left evm) amount).
Qed.

Lemma keeps_add_gas amount : keeps_halt_state (add_gas amount).
Proof.
  intros evm. unfold add_gas. by destruct (U256_add (gas_left evm) amount).
Qed.

Lemma keeps_gas_extend_memory start size :
  keeps_halt_state (gas_extend_memory start size).
Proof. done. Qed.

Lemma keeps_call_gas_cost gas to value :
  keeps_halt_state (call_gas_cost gas to value).
Proof. done. Qed.

Lemma keeps_extend start size : keeps_halt_state (extend start size).
Proof. done. Qed.

Lemma keeps_invoke f child_message :
  keeps_halt_state (invoke f child_message).
Proof.
  intros evm. unfold invoke. by destruct (f child_message (env evm)).
Qed.

Lemma keeps_modify (f : Evm -> Evm) :
  (forall evm, running (f evm) = running evm) ->
  (forall evm, output (f evm) = output evm) ->
  keeps_halt_state (modify f).
Proof. intros Hr Ho evm. simpl. auto. Qed.

Ltac keeps_halt_state :=
  repeat first
    [ apply keeps_bind; [ | intros ? ]
    | apply keeps_pop | apply keeps_push | apply keeps_gets
    | apply keeps_lift | apply keeps_charge_gas | apply keeps_add_gas
    | apply keeps_gas_extend_memory | apply keeps_call_gas_cost
    | apply keeps_extend | apply keeps_invoke
    | apply keeps_modify; [ intros ?; reflexivity | intros ?; reflexivity ]
    | match goal with
      | |- keeps_halt_state (if ?b then _ else _) => destruct b
      end ].

Lemma create_keeps_halt_state : keeps_halt_state create.
Proof. unfold create. keeps_halt_state. Qed.

Lemma call_with_keeps_halt_state fee_of code_of message_to :
  keeps_halt_state (call_with fee_of code_of message_to).
Proof. unfold call_with. keeps_halt_state. Qed.

(** *** The recursive step, whatever the interpreter answers *)

Lemma call_with_recursion fee_of code_of message_to evm
  gas address_word value in_start in_size out_start out_size rest
  call_gas_fee gas_input_memory gas_output_memory :
  let popped := to_address address_word in
  let own := current_target (message evm) in
  let frame := charged_frame evm rest in_start in_size out_start out_size
                 call_gas_fee gas_input_memory gas_output_memory in
  stack evm = gas :: address_word :: value :: in_start :: in_size
              :: out_start :: out_size :: rest ->
  CallCharged (choose fee_of popped own)
    evm gas value in_start in_size out_start out_size
    call_gas_fee gas_input_memory gas_output_memory ->
  value <= balance (get_account (state (env evm)) own) ->
  depth (message evm) + 1 <= STACK_DEPTH_LIMIT ->
  call_with fee_of code_of message_to evm
  = call_resume frame out_start out_size
      (process_message
         (call_child_message frame (choose message_to popped own)
            (choose code_of popped own)
            (gas + calculate_message_call_gas_stipend value) value
            in_start in_size)
         (env evm)).
Proof.
  intros popped own frame Hstack Hc Hbal Hdepth.
  subst popped own frame.
  destruct evm as [pc0 stk mem g en run msg out]; simpl in Hstack; subst stk.
  unfold call_resume.
  call_prefix Hc.
  test_paid Hbal. test_paid Hdepth.
  match goal with
  | |- context [process_message ?m ?e] =>
      destruct (process_message m e) as [[child_evm | e'] st]
  end; reflexivity.
Qed.

Lemma call_resume_returns frame out_start out_size child_evm st :
  N.of_nat (length (output child_evm)) <= U256_MAX_VALUE ->
  gas_left frame + gas_left child_evm <= U256_MAX_VALUE ->
  call_resume frame out_start out_size (Ok child_evm, st)
  = (Ok tt, merged_frame frame child_evm st out_start out_size).
Proof.
  intros Hlen Hgas. destruct frame as [pc0 stk mem g en run msg out].
  unfold call_resume, merged_frame. unfold_frame_monad. simpl in *.
  test_true Hlen. test_true Hgas. reflexivity.
Qed.

Lemma create_recursion evm endowment start size rest extend_cost :
  let frame := create_charged_frame evm rest start size extend_cost in
  stack evm = endowment :: start :: size :: rest ->
  CreateCharged evm start size extend_cost ->
  endowment <= balance (get_account (state (env evm)) (origin (env evm))) ->
  depth (message evm) + 1 <= STACK_DEPTH_LIMIT ->
  create evm
  = create_resume (create_suspended_frame frame)
      (process_create_message
         (create_child_message frame endowment start size)
         (env (create_suspended_frame frame))).
Proof.
  intros frame Hstack Hc Hbal Hdepth. subst frame.
  destruct evm as [pc0 stk mem g en run msg out]; simpl in Hstack; subst stk.
  unfold create_resume.
  create_prefix Hc.
  create_recursion Hbal Hdepth.
  match goal with
  | |- context [process_create_message ?m ?e] =>
      destruct (process_create_message m e) as [[child_evm | e'] st]
  end; [| reflexivity].
  cbv beta iota.
  destruct (U256_from_be_bytes (current_target (message child_evm)));
    reflexivity.
Qed.

(** The handlers leave the world state to the interpreter: after the
    recursive step the frame holds the state the interpreter left. *)
Lemma call_resume_state frame out_start out_size r st :
  state (env (call_resume frame out_start out_size (r, st)).2) = st.
Proof.
  destruct frame as [pc0 stk mem g en run msg out].
  destruct r as [child_evm | e]; [| reflexivity].
  unfold call_resume. unfold_frame_monad. simpl.
  destruct (N.of_nat (length (output child_evm)) <=? U256_MAX_VALUE);
    [| reflexivity]. simpl.
  destruct (g + gas_left child_evm <=? U256_MAX_VALUE); reflexivity.
Qed.

Lemma create_resume_state suspended r st :
  state (env (create_resume suspended (r, st)).2) = st.
Proof.
  destruct suspended as [pc0 stk mem g en run msg out].
  destruct r as [child_evm | e]; [| reflexivity].
  unfold create_resume. unfold_frame_monad. simpl.
  destruct (U256_from_be_bytes (current_target (message child_evm)));
    reflexivity.
Qed.

(** A RETURN that returns has popped two words and paid the extension. *)
Lemma return_inversion evm evm' :
  return_ evm = (Ok tt, evm') ->
  exists start size rest extend_cost,
    stack evm = start :: size :: rest
    /\ calculate_gas_extend_memory (memory evm) start size = Ok extend_cost
    /\ GAS_ZERO + extend_cost <= U256_MAX_VALUE
    /\ extend_cost <= gas_left evm.
Proof.
  destruct evm as [pc0 stk mem g en run msg out].
  unfold return_. unfold_frame_monad. simpl.
  destruct stk as [| start [| size rest]]; simpl; [discriminate .. |].
  destruct (calculate_gas_extend_memory mem start size) as [c | e] eqn:Hext;
    simpl; [| discriminate].
  destruct (N.leb_spec (GAS_ZERO + c) U256_MAX_VALUE) as [Hword | Hword];
    simpl; [| discriminate].
  unfold GAS_ZERO in *. rewrite N.add_0_l in *.
  destruct (N.ltb_spec g c) as [Hpaid | Hpaid]; simpl; [discriminate |].
  intros _. exists start, size, rest, c. rewrite N.add_0_l. auto.
Qed.

End Handlers.

(** * The system instructions against their specification *)

Section Claims.
Context {G : GasSchedule} {I : Interpreter} {A : AddressDerivation}.

(** C1, as amended.  A CALL or CALLCODE whose pops and gas charges
    succeed, run by a frame whose own account holds less than the popped
    value, pushes exactly one word, 0, and makes no recursive invocation:
    the outcome is one and the same frame under every interpreter.  It
    adds [message_call_gas_fee], the popped gas plus the stipend, to
    [gas_left], so that [gas_left] afterwards is [gas_left] immediately
    after the three charges (call fee, input and output memory) plus
    [message_call_gas_fee]. *)
Theorem call_insufficient_balance_refund op evm
  gas address_word value in_start in_size out_start out_size rest
  call_gas_fee gas_input_memory gas_output_memory :
  let own := current_target (message evm) in
  let to := call_target op (to_address address_word) own in
  let message_call_gas_fee :=
    gas + calculate_message_call_gas_stipend value in
  let frame := charged_frame evm rest in_start in_size out_start out_size
                 call_gas_fee gas_input_memory gas_output_memory in
  stack evm = gas :: address_word :: value :: in_start :: in_size
              :: out_start :: out_size :: rest ->
  CallCharged to evm gas value in_start in_size out_start out_size
    call_gas_fee gas_input_memory gas_output_memory ->
  balance (get_account (state (env evm)) own) < value ->
  gas_left frame + message_call_gas_fee <= U256_MAX_VALUE ->
  exists evm',
    (forall I' : Interpreter, @run_call G I' op evm = (Ok tt, evm'))
    /\ stack evm' = 0 :: rest
    /\ gas_left frame
       = gas_left evm - call_gas_fee - gas_input_memory - gas_output_memory
    /\ gas_left evm' = gas_left frame + message_call_gas_fee
    /\ state (env evm') = state (env evm).
Proof.
  intros own to message_call_gas_fee frame Hstack Hc Hbal Hword.
  exists (set_gas_left (gas_left frame + message_call_gas_fee)
            (set_stack (0 :: rest) frame)).
  split; [| by destruct evm].
  intros I'. rewrite run_call_eq.
  rewrite (call_with_local_failure (H0 := I') _ _ _ evm
             gas address_word value in_start in_size out_start out_size rest
             call_gas_fee gas_input_memory gas_output_memory Hstack).
  - rewrite add_gas_ok; [reflexivity | exact Hword].
  - by rewrite choose_choice_of.
  - by left.
Qed.

(** C2.  CREATE compares the popped endowment with the balance of the
    origin of the transaction, not with that of the frame's own account.
    When the origin holds less, CREATE pushes exactly one word, 0,
    increments no nonce (the world state is untouched), makes no recursive
    invocation (one outcome under every interpreter and address
    derivation) and leaves in [gas_left] what the creation-plus-memory
    charge left.  When the origin holds enough and the depth allows it,
    the creation goes ahead, whatever the frame's own account holds. *)
Theorem create_insufficient_origin_balance evm
  endowment start size rest extend_cost :
  let frame := create_charged_frame evm rest start size extend_cost in
  let sender := get_account (state (env evm)) (origin (env evm)) in
  stack evm = endowment :: start :: size :: rest ->
  CreateCharged evm start size extend_cost ->
  (balance sender < endowment ->
   exists evm',
     (forall (I' : Interpreter) (A' : AddressDerivation),
        @create G I' A' evm = (Ok tt, evm'))
     /\ stack evm' = 0 :: rest
     /\ state (env evm') = state (env evm)
     /\ gas_left evm' = gas_left evm - (GAS_CREATE + extend_cost))
  /\ (endowment <= balance sender ->
      depth (message evm) + 1 <= STACK_DEPTH_LIMIT ->
      create evm
      = create_resume (create_suspended_frame frame)
          (process_create_message
             (create_child_message frame endowment start size)
             (env (create_suspended_frame frame)))).
Proof.
  intros frame sender Hstack Hc. split.
  - intros Hbal. exists (set_stack (0 :: rest) frame).
    split; [| by destruct evm].
    intros I' A'.
    apply (create_local_failure (H0 := I') (H1 := A')
             evm endowment start size rest extend_cost); auto.
  - intros Hbal Hdepth. by apply create_recursion.
Qed.

(** C3.  The depth check of CREATE, CALL and CALLCODE.  When the depth of
    the parent message plus one exceeds the limit, the handler pushes 0
    and makes no recursive invocation (one outcome under every interpreter
    with that limit); CREATE keeps the gas the creation charge left, CALL
    and CALLCODE add [message_call_gas_fee] back to what the three charges
    left.  When the parent depth is the limit minus one, the handler hands
    the child message to the interpreter and carries on with whatever it
    answers: a returned child frame gives the address, respectively the
    word 1, on the stack and the child's gas back. *)
Theorem depth_guard
  evm_c endowment start size rest_c extend_cost
  op evm gas address_word value in_start in_size out_start out_size rest
  call_gas_fee gas_input_memory gas_output_memory :
  let frame_c := create_charged_frame evm_c rest_c start size extend_cost in
  let own := current_target (message evm) in
  let popped := to_address address_word in
  let to := call_target op popped own in
  let message_call_gas_fee :=
    gas + calculate_message_call_gas_stipend value in
  let frame := charged_frame evm rest in_start in_size out_start out_size
                 call_gas_fee gas_input_memory gas_output_memory in
  let create_failed := set_stack (0 :: rest_c) frame_c in
  let call_failed :=
    set_gas_left (gas_left frame + message_call_gas_fee)
      (set_stack (0 :: rest) frame) in
  let creation_message :=
    create_child_message frame_c endowment start size in
  let call_message :=
    call_child_message frame to popped message_call_gas_fee value
      in_start in_size in
  stack evm_c = endowment :: start :: size :: rest_c ->
  CreateCharged evm_c start size extend_cost ->
  endowment
    <= balance (get_account (state (env evm_c)) (origin (env evm_c))) ->
  stack evm = gas :: address_word :: value :: in_start :: in_size
              :: out_start :: out_size :: rest ->
  CallCharged to evm gas value in_start in_size out_start out_size
    call_gas_fee gas_input_memory gas_output_memory ->
  value <= balance (get_account (state (env evm)) own) ->
  (STACK_DEPTH_LIMIT < depth (message evm_c) + 1 ->
   (forall (I' : Interpreter) (A' : AddressDerivation),
      @STACK_DEPTH_LIMIT I' = @STACK_DEPTH_LIMIT I ->
      @create G I' A' evm_c = (Ok tt, create_failed))
   /\ stack create_failed = 0 :: rest_c
   /\ gas_left create_failed = gas_left evm_c - (GAS_CREATE + extend_cost)
   /\ state (env create_failed) = state (env evm_c))
  /\ (depth (message evm_c) + 1 = STACK_DEPTH_LIMIT ->
      create evm_c
      = create_resume (create_suspended_frame frame_c)
          (process_create_message creation_message
             (env (create_suspended_frame frame_c)))
      /\ (forall child_evm st,
            process_create_message creation_message
              (env (create_suspended_frame frame_c)) = (Ok child_evm, st) ->
            (length (current_target (message child_evm)) <= 32)%nat ->
            exists evm',
              create evm_c = (Ok tt, evm')
              /\ stack evm'
                 = from_be_bytes (current_target (message child_evm))
                   :: rest_c
              /\ gas_left evm' = gas_left child_evm
              /\ state (env evm') = st)
      /\ (forall e st,
            process_create_message creation_message
              (env (create_suspended_frame frame_c)) = (Raise e, st) ->
            (create evm_c).1 = Raise e))
  /\ (STACK_DEPTH_LIMIT < depth (message evm) + 1 ->
      gas_left frame + message_call_gas_fee <= U256_MAX_VALUE ->
      (forall I' : Interpreter,
         @STACK_DEPTH_LIMIT I' = @STACK_DEPTH_LIMIT I ->
         @run_call G I' op evm = (Ok tt, call_failed))
      /\ stack call_failed = 0 :: rest
      /\ gas_left call_failed
         = gas_left evm - call_gas_fee - gas_input_memory
           - gas_output_memory + message_call_gas_fee
      /\ state (env call_failed) = state (env evm))
  /\ (depth (message evm) + 1 = STACK_DEPTH_LIMIT ->
      run_call op evm
      = call_resume frame out_start out_size
          (process_message call_message (env evm))
      /\ (forall child_evm st,
            process_message call_message (env evm) = (Ok child_evm, st) ->
            N.of_nat (length (output child_evm)) <= U256_MAX_VALUE ->
            gas_left frame + gas_left child_evm <= U256_MAX_VALUE ->
            exists evm',
              run_call op evm = (Ok tt, evm')
              /\ stack evm' = 1 :: rest
              /\ gas_left evm'
                 = gas_left evm - call_gas_fee - gas_input_memory
                   - gas_output_memory + gas_left child_evm
              /\ state (env evm') = st)
      /\ (forall e st,
            process_message call_message (env evm) = (Raise e, st) ->
            (run_call op evm).1 = Raise e)).
Proof.
  intros frame_c own popped to message_call_gas_fee frame
    create_failed call_failed creation_message call_message
    Hstack_c Hc_c Hbal_c Hstack Hc Hbal.
  split; [| split; [| split]].
  - intros Hdepth. split; [| by destruct evm_c].
    intros I' A' Hlimit.
    apply (create_local_failure (H0 := I') (H1 := A')
             evm_c endowment start size rest_c extend_cost); auto.
    right. by rewrite Hlimit.
  - intros Hdepth.
    assert (Hrec :
              create evm_c
              = create_resume (create_suspended_frame frame_c)
                  (process_create_message creation_message
                     (env (create_suspended_frame frame_c)))).
    { apply create_recursion; auto. lia. }
    split; [exact Hrec |]. split.
    + intros child_evm st Hchild Hlen. rewrite Hrec, Hchild.
      unfold create_resume, bind, lift, U256_from_be_bytes.
      rewrite (proj2 (Nat.leb_le _ _) Hlen).
      eexists. split; [reflexivity |]. by destruct evm_c.
    + intros e st Hchild. by rewrite Hrec, Hchild.
  - intros Hdepth Hword. split; [| by destruct evm].
    intros I' Hlimit. rewrite run_call_eq.
    rewrite (call_with_local_failure (H0 := I') _ _ _ evm
               gas address_word value in_start in_size out_start out_size
               rest call_gas_fee gas_input_memory gas_output_memory Hstack).
    + rewrite add_gas_ok; [reflexivity | exact Hword].
    + by rewrite choose_choice_of.
    + right. by rewrite Hlimit.
  - intros Hdepth.
    assert (Hrec :
              run_call op evm
              = call_resume frame out_start out_size
                  (process_message call_message (env evm))).
    { rewrite run_call_eq.
      rewrite (call_with_recursion _ _ _ evm
                 gas address_word value in_start in_size out_start out_size
                 rest call_gas_fee gas_input_memory gas_output_memory Hstack)
        by (rewrite ?choose_choice_of; auto; lia).
      by rewrite choose_choice_of. }
    split; [exact Hrec |]. split.
    + intros child_evm st Hchild Hlen Hgas. rewrite Hrec, Hchild.
      rewrite call_resume_returns by done.
      eexists. split; [reflexivity |]. by destruct evm.
    + intros e st Hchild. by rewrite Hrec, Hchild.
Qed.

(** C4.  A CREATE that passes the balance and depth checks hands all its
    gas over: while the creation runs the parent has [gas_left = 0] (the
    frame a raising interpreter leaves behind shows it), and the child
    message carries as gas the whole [gas_left] the parent had, as caller
    the parent's current account, an empty target, empty data, the popped
    endowment as value, the bytes read from memory as code, the derived
    address as current target and the parent depth plus one.  Once the
    child frame is back, the parent's [gas_left] is the child's. *)
Theorem create_forwards_all_gas evm endowment start size rest extend_cost :
  let creator := current_target (message evm) in
  let frame := create_charged_frame evm rest start size extend_cost in
  let suspended := create_suspended_frame frame in
  let child_message := create_child_message frame endowment start size in
  stack evm = endowment :: start :: size :: rest ->
  CreateCharged evm start size extend_cost ->
  endowment <= balance (get_account (state (env evm)) (origin (env evm))) ->
  depth (message evm) + 1 <= STACK_DEPTH_LIMIT ->
  (gas child_message = gas_left evm - (GAS_CREATE + extend_cost)
   /\ caller child_message = creator
   /\ target child_message = []
   /\ data child_message = []
   /\ value child_message = endowment
   /\ msg_code child_message
      = memory_read_bytes (extend_memory (memory evm) start size) start size
   /\ current_target child_message
      = compute_contract_address creator
          (nonce (get_account (state (env evm)) creator))
   /\ depth child_message = depth (message evm) + 1)
  /\ gas_left suspended = 0
  /\ create evm
     = create_resume suspended
         (process_create_message child_message (env suspended))
  /\ (forall e st,
        process_create_message child_message (env suspended)
        = (Raise e, st) ->
        exists evm', create evm = (Raise e, evm') /\ gas_left evm' = 0)
  /\ (forall child_evm st,
        process_create_message child_message (env suspended)
        = (Ok child_evm, st) ->
        (length (current_target (message child_evm)) <= 32)%nat ->
        exists evm',
          create evm = (Ok tt, evm')
          /\ gas_left evm' = gas_left child_evm).
Proof.
  intros creator frame suspended child_message Hstack Hc Hbal Hdepth.
  pose proof (create_recursion evm endowment start size rest extend_cost
                Hstack Hc Hbal Hdepth) as Hrec.
  fold frame suspended child_message in Hrec.
  split; [by destruct evm |]. split; [reflexivity |].
  split; [exact Hrec |]. split.
  - intros e st Hchild. rewrite Hrec, Hchild. eexists. split; reflexivity.
  - intros child_evm st Hchild Hlen. rewrite Hrec, Hchild.
    unfold create_resume, bind, lift, U256_from_be_bytes.
    rewrite (proj2 (Nat.leb_le _ _) Hlen).
    eexists. split; reflexivity.
Qed.

(** C5.  A CREATE that passes the balance and depth checks increments the
    nonce of the frame's current account exactly once, before the
    recursive creation and whatever becomes of it: the interpreter is
    handed a world state in which that nonce is one more and every other
    account is as before, and afterwards the frame holds the world state
    the interpreter left, whether it returned or raised.  The address of
    the new contract is [compute_contract_address] of the creating account
    and the nonce it had just before the increment. *)
Theorem create_increments_nonce_once evm
  endowment start size rest extend_cost :
  let creator := current_target (message evm) in
  let before := state (env evm) in
  let frame := create_charged_frame evm rest start size extend_cost in
  let suspended := create_suspended_frame frame in
  let child_message := create_child_message frame endowment start size in
  stack evm = endowment :: start :: size :: rest ->
  CreateCharged evm start size extend_cost ->
  endowment <= balance (get_account before (origin (env evm))) ->
  depth (message evm) + 1 <= STACK_DEPTH_LIMIT ->
  state (env suspended) = increment_nonce before creator
  /\ nonce (get_account (state (env suspended)) creator)
     = nonce (get_account before creator) + 1
  /\ balance (get_account (state (env suspended)) creator)
     = balance (get_account before creator)
  /\ code (get_account (state (env suspended)) creator)
     = code (get_account before creator)
  /\ (forall other,
        other <> creator ->
        get_account (state (env suspended)) other = get_account before other)
  /\ current_target child_message
     = compute_contract_address creator
         (nonce (get_account before creator))
  /\ (forall r st,
        process_create_message child_message (env suspended) = (r, st) ->
        create evm = create_resume suspended (r, st)
        /\ state (env (create evm).2) = st).
Proof.
  intros creator before frame suspended child_message
    Hstack Hc Hbal Hdepth.
  pose proof (create_recursion evm endowment start size rest extend_cost
                Hstack Hc Hbal Hdepth) as Hrec.
  fold frame suspended child_message in Hrec.
  assert (Hstate : state (env suspended) = increment_nonce before creator)
    by by destruct evm.
  rewrite Hstate, get_account_increment_nonce.
  split; [reflexivity |]. do 3 (split; [reflexivity |]).
  split; [| split; [reflexivity | intros r st Hchild; split]].
  - intros other Hother. by apply get_account_increment_nonce_other.
  - rewrite Hrec. congruence.
  - rewrite Hrec, Hchild. apply create_resume_state.
Qed.

(** C6.  A CALL or CALLCODE that reaches the recursive invocation and
    gets a child frame back pushes the word 1 whatever that frame is,
    copies the first [min(memory_output_size, len(child output))] bytes of
    the child's output into its memory from [memory_output_start] on,
    leaving every other byte and the size of the memory as they were, and
    adds the child's [gas_left] to its own. *)
Theorem call_merges_child_frame op evm
  gas address_word value in_start in_size out_start out_size rest
  call_gas_fee gas_input_memory gas_output_memory child_evm st :
  let own := current_target (message evm) in
  let popped := to_address address_word in
  let to := call_target op popped own in
  let message_call_gas_fee :=
    gas + calculate_message_call_gas_stipend value in
  let frame := charged_frame evm rest in_start in_size out_start out_size
                 call_gas_fee gas_input_memory gas_output_memory in
  let copied :=
    N.to_nat (N.min out_size (N.of_nat (length (output child_evm)))) in
  stack evm = gas :: address_word :: value :: in_start :: in_size
              :: out_start :: out_size :: rest ->
  CallCharged to evm gas value in_start in_size out_start out_size
    call_gas_fee gas_input_memory gas_output_memory ->
  value <= balance (get_account (state (env evm)) own) ->
  depth (message evm) + 1 <= STACK_DEPTH_LIMIT ->
  process_message
    (call_child_message frame to popped message_call_gas_fee value
       in_start in_size)
    (env evm) = (Ok child_evm, st) ->
  N.of_nat (length (output child_evm)) <= U256_MAX_VALUE ->
  gas_left frame + gas_left child_evm <= U256_MAX_VALUE ->
  exists evm',
    run_call op evm = (Ok tt, evm')
    /\ stack evm' = 1 :: rest
    /\ gas_left evm' = gas_left frame + gas_left child_evm
    /\ length (memory evm') = length (memory frame)
    /\ (forall i : nat,
          (i < copied)%nat ->
          memory evm' !! (N.to_nat out_start + i)%nat
          = output child_evm !! i)
    /\ (forall j : nat,
          (j < N.to_nat out_start \/ N.to_nat out_start + copied <= j)%nat ->
          memory evm' !! j = memory frame !! j).
Proof.
  intros own popped to message_call_gas_fee frame copied
    Hstack Hc Hbal Hdepth Hchild Hlen Hgas.
  exists (merged_frame frame child_evm st out_start out_size).
  split.
  { rewrite run_call_eq.
    rewrite (call_with_recursion _ _ _ evm
               gas address_word value in_start in_size out_start out_size
               rest call_gas_fee gas_input_memory gas_output_memory Hstack)
      by (rewrite ?choose_choice_of; auto).
    rewrite choose_choice_of. unfold choose.
    subst own popped to message_call_gas_fee frame.
    rewrite Hchild. by apply call_resume_returns. }
  split; [by destruct evm |]. split; [by destruct evm |].
  assert (Hmem : memory (merged_frame frame child_evm st out_start out_size)
                 = memory_write (memory frame) out_start
                     (take copied (output child_evm))) by by destruct evm.
  rewrite Hmem.
  destruct (call_output_region_covered
              (extend_memory (memory evm) in_start in_size)
              out_start out_size (output child_evm)) as [Hwritten Hcovered].
  fold copied in Hwritten, Hcovered.
  assert (Hframe : memory frame
                   = extend_memory
                       (extend_memory (memory evm) in_start in_size)
                       out_start out_size) by by destruct evm.
  split; [apply memory_write_length |]. split.
  - intros i Hi.
    destruct Hcovered as [Hnil | Hcovered].
    { rewrite Hnil in Hwritten. simpl in Hwritten. lia. }
    rewrite memory_write_inside.
    + by apply lookup_take_lt.
    + by rewrite Hframe.
    + lia.
  - intros j Hj. apply memory_write_outside. lia.
Qed.

(** C7, as amended.  CALLCODE is CALL - same pop order, memory charging
    and extension, balance and depth checks, result merging - with the
    code read from the popped address and with the frame's own account in
    the place of the popped address not only as target and current target
    of the child message but also as the address the call fee is computed
    for.  Precisely: on every frame whose own account is the address of
    the word [own_word], CALLCODE does what CALL does on the same frame
    with [own_word] in the place of the popped word, under an interpreter
    that runs the code of the popped address instead of the code of the
    called account.  In particular the two handlers coincide on a frame
    that calls its own account. *)
Theorem callcode_is_call_on_own_account evm gas address_word own_word rest :
  stack evm = gas :: address_word :: rest ->
  to_address own_word = current_target (message evm) ->
  callcode evm
  = @call G (with_code_of (to_address address_word) I)
      (set_stack (gas :: own_word :: rest) evm)
  /\ (to_address address_word = current_target (message evm) ->
      callcode evm = call evm).
Proof.
  intros Hstack Hown.
  destruct evm as [pc0 stk mem g en run msg out]; simpl in *; subst stk.
  split.
  - unfold callcode, call. unfold_frame_monad.
    destruct rest as [| x1 [| x2 [| x3 [| x4 [| x5 rest]]]]]; simpl;
      try reflexivity.
    rewrite Hown. reflexivity.
  - intros Hself. rewrite call_eq, callcode_eq.
    unfold call_with, bind, pop, gets.
    destruct rest as [| x1 [| x2 [| x3 [| x4 [| x5 rest]]]]]; simpl;
      try reflexivity.
    rewrite Hself. reflexivity.
Qed.

(** C8.  A RETURN on a frame with two words on its stack and gas for the
    charge pops the start and the size, pays the zero base cost plus the
    memory-extension cost, extends the memory, sets the output buffer to
    the [size] bytes of memory from [start] on and stops the frame.  With
    a zero size the output is empty, whatever the start. *)
Theorem return_halts_with_output evm start size rest extend_cost :
  stack evm = start :: size :: rest ->
  calculate_gas_extend_memory (memory evm) start size = Ok extend_cost ->
  GAS_ZERO + extend_cost <= U256_MAX_VALUE ->
  GAS_ZERO + extend_cost <= gas_left evm ->
  exists evm',
    return_ evm = (Ok tt, evm')
    /\ stack evm' = rest
    /\ gas_left evm' = gas_left evm - (GAS_ZERO + extend_cost)
    /\ GAS_ZERO = 0
    /\ memory evm' = extend_memory (memory evm) start size
    /\ output evm' = memory_read_bytes (memory evm') start size
    /\ length (output evm') = N.to_nat size
    /\ (forall i : nat,
          (i < N.to_nat size)%nat ->
          output evm' !! i = memory evm' !! (N.to_nat start + i)%nat)
    /\ running evm' = false
    /\ (size = 0 -> output evm' = []).
Proof.
  unfold GAS_ZERO. rewrite !N.add_0_l.
  intros Hstack Hext Hword Hpaid.
  eexists. split; [by apply return_halts |].
  destruct evm as [pc0 stk mem g en run msg out]; simpl in *.
  repeat split.
  - destruct (N.eqb_spec size 0) as [-> | Hsize]; [done |].
    apply memory_read_bytes_length. by apply extend_memory_covers.
  - intros i Hi. by apply memory_read_bytes_lookup.
  - by intros ->.
Qed.

(** C9.  CREATE, CALL and CALLCODE leave the [running] flag and the
    output buffer of the frame as they found them, on every path, the
    raising ones included; of the four handlers only RETURN, when it
    returns, assigns the output and clears [running]. *)
Theorem only_return_halts evm :
  (running (create evm).2 = running evm
   /\ output (create evm).2 = output evm)
  /\ (running (call evm).2 = running evm
      /\ output (call evm).2 = output evm)
  /\ (running (callcode evm).2 = running evm
      /\ output (callcode evm).2 = output evm)
  /\ (forall evm',
        return_ evm = (Ok tt, evm') ->
        running evm' = false
        /\ exists start size rest,
             stack evm = start :: size :: rest
             /\ output evm' = memory_read_bytes (memory evm') start size).
Proof.
  split; [apply create_keeps_halt_state |].
  split; [rewrite call_eq; apply call_with_keeps_halt_state |].
  split; [rewrite callcode_eq; apply call_with_keeps_halt_state |].
  intros evm' Hret.
  destruct (return_inversion evm evm' Hret)
    as (start & size & rest & extend_cost & Hstack & Hext & Hword & Hpaid).
  unfold GAS_ZERO in Hword. rewrite N.add_0_l in Hword.
  rewrite (return_halts evm start size rest extend_cost) in Hret by done.
  injection Hret as <-. split; [by destruct evm |].
  exists start, size, rest. split; [done | by destruct evm].
Qed.

(** C10.  A CALL or CALLCODE that fails locally - too small a balance or
    too deep a call - has by then extended the memory over the input and
    the output region and paid the call fee and both memory-extension
    fees.  Neither is undone: the frame keeps the extended memory, which
    begins with the old one, and of the gas only [message_call_gas_fee]
    comes back. *)
Theorem call_local_failure_is_not_atomic op evm
  gas address_word value in_start in_size out_start out_size rest
  call_gas_fee gas_input_memory gas_output_memory :
  let own := current_target (message evm) in
  let to := call_target op (to_address address_word) own in
  let message_call_gas_fee :=
    gas + calculate_message_call_gas_stipend value in
  let frame := charged_frame evm rest in_start in_size out_start out_size
                 call_gas_fee gas_input_memory gas_output_memory in
  stack evm = gas :: address_word :: value :: in_start :: in_size
              :: out_start :: out_size :: rest ->
  CallCharged to evm gas value in_start in_size out_start out_size
    call_gas_fee gas_input_memory gas_output_memory ->
  balance (get_account (state (env evm)) own) < value
  \/ STACK_DEPTH_LIMIT < depth (message evm) + 1 ->
  gas_left frame + message_call_gas_fee <= U256_MAX_VALUE ->
  exists evm',
    run_call op evm = (Ok tt, evm')
    /\ memory evm'
       = extend_memory (extend_memory (memory evm) in_start in_size)
           out_start out_size
    /\ (forall i, in_start <= i < in_start + in_size ->
                  i < N.of_nat (length (memory evm')))
    /\ (forall i, out_start <= i < out_start + out_size ->
                  i < N.of_nat (length (memory evm')))
    /\ (exists zeros : nat,
          memory evm' = memory evm ++ replicate zeros x00)
    /\ gas_left evm' + call_gas_fee + gas_input_memory + gas_output_memory
       = gas_left evm + message_call_gas_fee.
Proof.
  intros own to message_call_gas_fee frame Hstack Hc Hfail Hword.
  exists (set_gas_left (gas_left frame + message_call_gas_fee)
            (set_stack (0 :: rest) frame)).
  split.
  { rewrite run_call_eq.
    rewrite (call_with_local_failure _ _ _ evm
               gas address_word value in_start in_size out_start out_size
               rest call_gas_fee gas_input_memory gas_output_memory Hstack).
    - rewrite add_gas_ok; [reflexivity | exact Hword].
    - by rewrite choose_choice_of.
    - done. }
  destruct Hc as [_ _ Hfee_le _ Hin_le _ Hout_le].
  destruct evm as [pc0 stk mem g en run msg out]; simpl in *.
  split; [reflexivity |].
  pose proof (extend_memory_length
                (extend_memory mem in_start in_size) out_start out_size).
  repeat split.
  - intros i Hi.
    pose proof (extend_memory_covers mem in_start in_size). lia.
  - intros i Hi.
    pose proof (extend_memory_covers
                  (extend_memory mem in_start in_size) out_start out_size).
    lia.
  - destruct (extend_memory_grows mem in_start in_size) as [k1 ->].
    destruct (extend_memory_grows (mem ++ replicate k1 x00)
                out_start out_size) as [k2 ->].
    exists (k1 + k2)%nat. by rewrite <- app_assoc, replicate_add.
  - lia.
Qed.

End Claims.

(** * The handlers at work on the sample world *)

Section Witnesses.
#[local] Existing Instance Sample.gas_table.
#[local] Existing Instance Sample.echo.
#[local] Existing Instance Sample.addresses.

Import Sample.

Ltac evaluate :=
  vm_compute; first [reflexivity | discriminate | intro; discriminate | lia].

Lemma poor_call_charged :
  CallCharged bob poor_call 1000 5 0 0 0 0 10040 0 0.
Proof. constructor; evaluate. Defined.

Lemma paid_call_charged d :
  CallCharged bob (paid_call d) 1000 2 0 4 32 2 10040 3 3.
Proof. constructor; evaluate. Defined.

Lemma creation_charged endowment d :
  CreateCharged (creation endowment d) 0 4 3.
Proof. constructor; evaluate. Defined.

(** C1: the claim as stated fails.  After the three charges [poor_call]
    has 89960 gas left; after the failed attempt it has 93260, which is
    neither that nor the initial 100000 minus the call fee of 10040. *)
Lemma call_insufficient_balance_gas_counterexample :
  let after_charges := charged_frame poor_call [77] 0 0 0 0 10040 0 0 in
  CallCharged (to_address 11) poor_call 1000 5 0 0 0 0 10040 0 0
  /\ balance (get_account (state (env poor_call))
                (current_target (message poor_call))) < 5
  /\ (call poor_call).1 = Ok tt
  /\ stack (call poor_call).2 = [0; 77]
  /\ gas_left after_charges = 89960
  /\ gas_left (call poor_call).2 = 93260
  /\ gas_left (call poor_call).2 <> gas_left after_charges
  /\ gas_left (call poor_call).2 <> gas_left poor_call - 10040.
Proof.
  split; [exact poor_call_charged |]. repeat split; evaluate.
Qed.

Lemma call_insufficient_balance_refund_witness :
  exists evm',
    call poor_call = (Ok tt, evm')
    /\ stack evm' = [0; 77]
    /\ gas_left evm' = 93260.
Proof.
  destruct (call_insufficient_balance_refund CALL poor_call
              1000 11 5 0 0 0 0 [77] 10040 0 0
              eq_refl poor_call_charged ltac:(evaluate) ltac:(evaluate))
    as (evm' & Hrun & Hstack & _ & Hgas & _).
  exists evm'. split; [exact (Hrun Sample.echo) |]. split; [exact Hstack |].
  rewrite Hgas. evaluate.
Defined.

Lemma create_insufficient_origin_balance_witness :
  exists evm',
    create (creation 500 0) = (Ok tt, evm')
    /\ stack evm' = [0; 77]
    /\ state (env evm') = world
    /\ gas_left evm' = 67997.
Proof.
  destruct (proj1 (create_insufficient_origin_balance (creation 500 0)
                     500 0 4 [77] 3 eq_refl (creation_charged 500 0))
              ltac:(evaluate))
    as (evm' & Hrun & Hstack & Hstate & Hgas).
  exists evm'. split; [exact (Hrun Sample.echo Sample.addresses) |].
  split; [exact Hstack |]. split; [exact Hstate |].
  rewrite Hgas. evaluate.
Defined.

Lemma depth_guard_witness :
  (exists evm',
     @create gas_table failing addresses (creation 5 1024) = (Ok tt, evm')
     /\ stack evm' = [0; 77]
     /\ gas_left evm' = 67997)
  /\ (exists evm',
        @call gas_table failing (paid_call 1024) = (Ok tt, evm')
        /\ stack evm' = [0; 77]
        /\ gas_left evm' = 93254)
  /\ (exists evm',
        create (creation 5 1023) = (Ok tt, evm')
        /\ gas_left evm' = 67997)
  /\ (exists evm',
        call (paid_call 1023) = (Ok tt, evm')
        /\ stack evm' = [1; 77]
        /\ gas_left evm' = 93254).
Proof.
  destruct (depth_guard (creation 5 1024) 5 0 4 [77] 3
              CALL (paid_call 1024) 1000 11 2 0 4 32 2 [77] 10040 3 3
              eq_refl (creation_charged 5 1024) ltac:(evaluate)
              eq_refl (paid_call_charged 1024) ltac:(evaluate))
    as (Hcreate_deep & _ & Hcall_deep & _).
  destruct (depth_guard (creation 5 1023) 5 0 4 [77] 3
              CALL (paid_call 1023) 1000 11 2 0 4 32 2 [77] 10040 3 3
              eq_refl (creation_charged 5 1023) ltac:(evaluate)
              eq_refl (paid_call_charged 1023) ltac:(evaluate))
    as (_ & Hcreate & _ & Hcall).
  split; [| split; [| split]].
  - destruct (Hcreate_deep ltac:(evaluate)) as (Hrun & Hstack & Hgas & _).
    eexists. split; [exact (Hrun failing addresses eq_refl) |].
    split; [exact Hstack |]. rewrite Hgas. evaluate.
  - destruct (Hcall_deep ltac:(evaluate) ltac:(evaluate))
      as (Hrun & Hstack & Hgas & _).
    eexists. split; [exact (Hrun failing eq_refl) |].
    split; [exact Hstack |]. rewrite Hgas. evaluate.
  - destruct (Hcreate ltac:(evaluate)) as (_ & Hreturned & _).
    edestruct Hreturned as (evm' & Hrun & _ & Hgas & _);
      [reflexivity | evaluate |].
    exists evm'. split; [exact Hrun |]. rewrite Hgas. evaluate.
  - destruct (Hcall ltac:(evaluate)) as (_ & Hreturned & _).
    edestruct Hreturned as (evm' & Hrun & Hstack & Hgas & _);
      [reflexivity | evaluate | evaluate |].
    exists evm'. split; [exact Hrun |]. split; [exact Hstack |].
    rewrite Hgas. evaluate.
Defined.

Lemma create_forwards_all_gas_witness :
  (exists evm',
     @create gas_table failing addresses (creation 5 0)
     = (Raise (InterpreterError 0), evm')
     /\ gas_left evm' = 0)
  /\ (exists evm',
        create (creation 5 0) = (Ok tt, evm') /\ gas_left evm' = 67997).
Proof.
  split.
  - destruct (create_forwards_all_gas (I := failing) (creation 5 0)
                5 0 4 [77] 3 eq_refl (creation_charged 5 0)
                ltac:(evaluate) ltac:(evaluate))
      as (_ & _ & _ & Hraise & _).
    exact (Hraise (InterpreterError 0) _ eq_refl).
  - destruct (create_forwards_all_gas (creation 5 0)
                5 0 4 [77] 3 eq_refl (creation_charged 5 0)
                ltac:(evaluate) ltac:(evaluate))
      as (_ & _ & _ & _ & Hreturn).
    edestruct Hreturn as (evm' & Hrun & Hgas); [reflexivity | evaluate |].
    exists evm'. split; [exact Hrun |]. rewrite Hgas. evaluate.
Defined.

Lemma create_increments_nonce_once_witness :
  nonce (get_account world bob) = 0
  /\ nonce (get_account (state (env (create (creation 5 0)).2)) bob) = 1
  /\ nonce (get_account
              (state (env (@create gas_table failing addresses
                             (creation 5 0)).2)) bob) = 1.
Proof.
  split; [reflexivity |]. split.
  - destruct (create_increments_nonce_once (creation 5 0)
                5 0 4 [77] 3 eq_refl (creation_charged 5 0)
                ltac:(evaluate) ltac:(evaluate))
      as (_ & _ & _ & _ & _ & _ & Hafter).
    rewrite (proj2 (Hafter _ _ eq_refl)). evaluate.
  - destruct (create_increments_nonce_once (I := failing) (creation 5 0)
                5 0 4 [77] 3 eq_refl (creation_charged 5 0)
                ltac:(evaluate) ltac:(evaluate))
      as (_ & _ & _ & _ & _ & _ & Hafter).
    rewrite (proj2 (Hafter _ _ eq_refl)). evaluate.
Defined.

Lemma call_merges_child_frame_witness :
  exists evm',
    call (paid_call 0) = (Ok tt, evm')
    /\ stack evm' = [1; 77]
    /\ gas_left evm' = 93254
    /\ length (memory evm') = 64%nat.
Proof.
  edestruct (call_merges_child_frame CALL (paid_call 0)
               1000 11 2 0 4 32 2 [77] 10040 3 3)
    as (evm' & Hrun & Hstack & Hgas & Hlen & _);
    [ reflexivity | exact (paid_call_charged 0) | evaluate | evaluate
    | reflexivity | evaluate | evaluate | ].
  exists evm'. split; [exact Hrun |]. split; [exact Hstack |].
  split; [rewrite Hgas | rewrite Hlen]; evaluate.
Defined.

(** C7: the claim as stated fails.  With the call fee computed for the
    popped address, as in CALL, [borrowed_code_call] would pay the 25000
    surcharge for an account that does not exist; CALLCODE computes the
    fee for the frame's own account and does not. *)
Lemma callcode_call_fee_counterexample :
  gas_left (callcode borrowed_code_call).2 = 99960
  /\ gas_left (callcode_as_specified borrowed_code_call).2 = 74960
  /\ callcode borrowed_code_call
     <> callcode_as_specified borrowed_code_call.
Proof.
  split; [evaluate |]. split; [evaluate |].
  intros Heq. apply (f_equal (fun r => gas_left r.2)) in Heq.
  vm_compute in Heq. discriminate.
Qed.

Lemma callcode_is_call_on_own_account_witness :
  @callcode gas_table code_echo
    (frame [1000; 11; 0; 0; 0; 0; 1; 77] alice 0)
  = @call gas_table (with_code_of bob code_echo)
      (frame [1000; 10; 0; 0; 0; 0; 1; 77] alice 0)
  /\ memory (@callcode gas_table code_echo
               (frame [1000; 11; 0; 0; 0; 0; 1; 77] alice 0)).2 !! 0%nat
     = Some x60
  /\ memory (@call gas_table code_echo
               (frame [1000; 10; 0; 0; 0; 0; 1; 77] alice 0)).2 !! 0%nat
     = Some x00.
Proof.
  split; [| split; evaluate].
  exact (proj1 (callcode_is_call_on_own_account (G := gas_table)
                  (I := code_echo)
                  (frame [1000; 11; 0; 0; 0; 0; 1; 77] alice 0)
                  1000 11 10 [0; 0; 0; 0; 1; 77] eq_refl eq_refl)).
Defined.

Lemma return_halts_with_output_witness :
  exists evm',
    return_ returning = (Ok tt, evm')
    /\ output evm' = [x00; x00; x00; x00]
    /\ running evm' = false
    /\ gas_left evm' = 99997.
Proof.
  destruct (return_halts_with_output (G := gas_table) returning 0 4 [77] 3
              eq_refl ltac:(evaluate) ltac:(evaluate) ltac:(evaluate))
    as (evm' & Hrun & _ & Hgas & _ & Hmem & Hout & _ & _ & Hhalt & _).
  exists evm'. split; [exact Hrun |].
  split; [rewrite Hout, Hmem; evaluate |]. split; [exact Hhalt |].
  rewrite Hgas. evaluate.
Defined.

Lemma only_return_halts_witness :
  running (return_ returning).2 = false
  /\ running (create (creation 5 0)).2 = true.
Proof.
  destruct (only_return_halts returning) as (_ & _ & _ & Hreturn).
  destruct (only_return_halts (creation 5 0)) as ((Hcreate & _) & _).
  split.
  - exact (proj1 (Hreturn (return_ returning).2 eq_refl)).
  - rewrite Hcreate. reflexivity.
Defined.

Lemma call_local_failure_is_not_atomic_witness :
  exists evm',
    call (paid_call 1024) = (Ok tt, evm')
    /\ length (memory evm') = 64%nat
    /\ gas_left evm' + 10040 + 3 + 3 = 100000 + 3300.
Proof.
  destruct (call_local_failure_is_not_atomic CALL (paid_call 1024)
              1000 11 2 0 4 32 2 [77] 10040 3 3
              eq_refl (paid_call_charged 1024)
              ltac:(right; evaluate) ltac:(evaluate))
    as (evm' & Hrun & Hmem & _ & _ & _ & Hgas).
  exists evm'. split; [exact Hrun |].
  split; [rewrite Hmem; evaluate | exact Hgas].
Defined.

End Witnesses.

(** * Every path through the handlers *)

(** ** Frame relations kept along a handler *)

Section Preservation.
Context `{GasSchedule} `{Interpreter} `{AddressDerivation}.
Variable R : Evm -> Evm -> Prop.
Hypothesis R_refl : forall evm, R evm evm.
Hypothesis R_trans : forall a b c, R a b -> R b c -> R a c.
Hypothesis R_stack : forall s evm, R evm (set_stack s evm).
Hypothesis R_gas_left : forall g evm, R evm (set_gas_left g evm).
Hypothesis R_state : forall st evm, R evm (set_state st evm).
Hypothesis R_memory_extended :
  forall start size evm,
    R evm (set_memory (extend_memory (memory evm) start size) evm).
Hypothesis R_memory_written :
  forall start v evm,
    R evm (set_memory (memory_write (memory evm) start v) evm).

Lemma preserves_bind {A B} (m : M A) (k : A -> M B) :
  preserves R m -> (forall a, preserves R (k a)) -> preserves R (bind m k).
Proof.
  intros Hm Hk evm. unfold bind. specialize (Hm evm).
  destruct (m evm) as [[a | e] evm']; simpl in *; [| done].
  eapply R_trans; [exact Hm | apply Hk].
Qed.

Lemma preserves_pop : preserves R pop.
Proof. intros evm. unfold pop. destruct (stack evm); simpl; auto. Qed.

Lemma preserves_push w : preserves R (push w).
Proof. intros evm. apply R_stack. Qed.

Lemma preserves_gets {A} (f : Evm -> A) : preserves R (gets f).
Proof. intros evm. apply R_refl. Qed.

Lemma preserves_lift {A} (r : Result A) : preserves R (lift r).
Proof. intros evm. apply R_refl. Qed.

Lemma preserves_charge_gas amount : preserves R (charge_gas amount).
Proof.
  intros evm. unfold charge_gas.
  destruct (subtract_gas (gas_left evm) amount); simpl; auto.
Qed.

Lemma preserves_add_gas amount : preserves R (add_gas amount).
Proof.
  intros evm. unfold add_gas.
  destruct (U256_add (gas_left evm) amount); simpl; auto.
Qed.

Lemma preserves_gas_extend_memory start size :
  preserves R (gas_extend_memory start size).
Proof. intros evm. apply R_refl. Qed.

Lemma preserves_call_gas_cost gas to value :
  preserves R (call_gas_cost gas to value).
Proof. intros evm. apply R_refl. Qed.

Lemma preserves_extend start size : preserves R (extend start size).
Proof. intros evm. apply R_memory_extended. Qed.

Lemma preserves_invoke f child_message : preserves R (invoke f child_message).
Proof.
  intros evm. unfold invoke.
  destruct (f child_message (env evm)); simpl; auto.
Qed.

Lemma preserves_modify (f : Evm -> Evm) :
  (forall evm, R evm (f evm)) -> preserves R (modify f).
Proof. intros Hf evm. apply Hf. Qed.

Ltac preserves :=
  repeat first
    [ apply preserves_bind; [ | intros ? ]
    | apply preserves_pop | apply preserves_push | apply preserves_gets
    | apply preserves_lift | apply preserves_charge_gas
    | apply preserves_add_gas | apply preserves_gas_extend_memory
    | apply preserves_call_gas_cost | apply preserves_extend
    | apply preserves_invoke
    | apply preserves_modify; solve [auto]
    | match goal with
      | |- preserves _ (if ?b then _ else _) => destruct b
      end ].

Lemma preserves_create : preserves R create.
Proof. unfold create. preserves. Qed.

Lemma preserves_call_with fee_of code_of message_to :
  preserves R (call_with fee_of code_of message_to).
Proof. unfold call_with. preserves. Qed.

Lemma preserves_return :
  (forall o evm, R evm (set_output o evm)) ->
  (forall b evm, R evm (set_running b evm)) ->
  preserves R return_.
Proof. intros Houtput Hrunning. unfold return_. preserves. Qed.

End Preservation.


(** ** Paths that end before the interpreter is reached *)

Section Paths.
Context {G : GasSchedule} {I : Interpreter} {A : AddressDerivation}.

Lemma call_with_underflow fee_of code_of message_to evm :
  (length (stack evm) < 7)%nat ->
  call_with fee_of code_of message_to evm
  = (Raise StackUnderflowError, set_stack [] evm).
Proof.
  destruct evm as [pc0 stk mem g en run msg out]. simpl.
  destruct stk as [| x1 [| x2 [| x3 [| x4 [| x5 [| x6 [| x7 rest]]]]]]];
    simpl; intros Hlen; try reflexivity. lia.
Qed.

Lemma create_underflow evm :
  (length (stack evm) < 3)%nat ->
  create evm = (Raise StackUnderflowError, set_stack [] evm).
Proof.
  destruct evm as [pc0 stk mem g en run msg out]. simpl.
  destruct stk as [| x1 [| x2 [| x3 rest]]];
    simpl; intros Hlen; try reflexivity. lia.
Qed.

Lemma return_underflow evm :
  (length (stack evm) < 2)%nat ->
  return_ evm = (Raise StackUnderflowError, set_stack [] evm).
Proof.
  destruct evm as [pc0 stk mem g en run msg out]. simpl.
  destruct stk as [| x1 [| x2 rest]];
    simpl; intros Hlen; try reflexivity. lia.
Qed.

Lemma call_with_out_of_gas fee_of code_of message_to evm
  gas address_word value in_start in_size out_start out_size rest
  call_gas_fee :
  stack evm = gas :: address_word :: value :: in_start :: in_size
              :: out_start :: out_size :: rest ->
  calculate_call_gas_cost (state (env evm)) gas
    (choose fee_of (to_address address_word) (current_target (message evm)))
    value = Ok call_gas_fee ->
  gas + calculate_message_call_gas_stipend value <= U256_MAX_VALUE ->
  (gas_left evm < call_gas_fee ->
   call_with fee_of code_of message_to evm
   = (Raise OutOfGasError, set_stack rest evm))
  /\ (forall gas_input_memory,
        call_gas_fee <= gas_left evm ->
        calculate_gas_extend_memory (memory evm) in_start in_size
        = Ok gas_input_memory ->
        gas_left evm - call_gas_fee < gas_input_memory ->
        call_with fee_of code_of message_to evm
        = (Raise OutOfGasError,
           set_gas_left (gas_left evm - call_gas_fee) (set_stack rest evm)))
  /\ (forall gas_input_memory gas_output_memory,
        call_gas_fee <= gas_left evm ->
        calculate_gas_extend_memory (memory evm) in_start in_size
        = Ok gas_input_memory ->
        gas_input_memory <= gas_left evm - call_gas_fee ->
        calculate_gas_extend_memory
          (extend_memory (memory evm) in_start in_size) out_start out_size
        = Ok gas_output_memory ->
        gas_left evm - call_gas_fee - gas_input_memory < gas_output_memory ->
        call_with fee_of code_of message_to evm
        = (Raise OutOfGasError,
           set_memory (extend_memory (memory evm) in_start in_size)
             (set_gas_left (gas_left evm - call_gas_fee - gas_input_memory)
                (set_stack rest evm)))).
Proof.
  intros Hstack Hfee Hword.
  destruct evm as [pc0 stk mem g en run msg out]; simpl in *; subst stk.
  unfold call_with; unfold_frame_monad; simpl.
  rewrite Hfee; simpl. test_true Hword.
  split; [| split].
  - intros Hlt. rewrite (proj2 (N.ltb_lt _ _) Hlt). reflexivity.
  - intros gin Hpaid Hin Hlt. test_paid Hpaid. rewrite Hin; simpl.
    rewrite (proj2 (N.ltb_lt _ _) Hlt). reflexivity.
  - intros gin gout Hpaid Hin Hin_paid Hout Hlt.
    test_paid Hpaid. rewrite Hin; simpl. test_paid Hin_paid.
    rewrite Hout; simpl. rewrite (proj2 (N.ltb_lt _ _) Hlt). reflexivity.
Qed.

Lemma create_out_of_gas_path evm endowment start size rest extend_cost :
  stack evm = endowment :: start :: size :: rest ->
  calculate_gas_extend_memory (memory evm) start size = Ok extend_cost ->
  GAS_CREATE + extend_cost <= U256_MAX_VALUE ->
  gas_left evm < GAS_CREATE + extend_cost ->
  create evm = (Raise OutOfGasError, set_stack rest evm).
Proof.
  intros Hstack Hext Hword Hlt.
  destruct evm as [pc0 stk mem g en run msg out]; simpl in *; subst stk.
  unfold create; unfold_frame_monad; simpl.
  rewrite Hext; simpl. test_true Hword.
  rewrite (proj2 (N.ltb_lt _ _) Hlt). reflexivity.
Qed.

(** ** What a handler that returned has gone through *)

Lemma call_with_inversion fee_of code_of message_to evm evm' :
  call_with fee_of code_of message_to evm = (Ok tt, evm') ->
  exists gas address_word value in_start in_size out_start out_size rest
         call_gas_fee gas_input_memory gas_output_memory,
    stack evm = gas :: address_word :: value :: in_start :: in_size
                :: out_start :: out_size :: rest
    /\ CallCharged
         (choose fee_of (to_address address_word)
            (current_target (message evm)))
         evm gas value in_start in_size out_start out_size
         call_gas_fee gas_input_memory gas_output_memory.
Proof.
  destruct evm as [pc0 stk mem g en run msg out].
  unfold call_with; unfold_frame_monad.
  destruct stk as [| gas [| aw [| v [| s1 [| z1 [| s2 [| z2 rest]]]]]]];
    simpl; try discriminate.
  destruct (calculate_call_gas_cost (state en) gas
              (choose fee_of (to_address aw) (current_target msg)) v)
    as [fee | e] eqn:Hfee; simpl; [| discriminate].
  destruct (N.leb_spec (gas + calculate_message_call_gas_stipend v)
              U256_MAX_VALUE) as [Hword | Hword]; simpl; [| discriminate].
  destruct (N.ltb_spec g fee) as [Hlt | Hpaid]; simpl; [discriminate |].
  destruct (calculate_gas_extend_memory mem s1 z1) as [gin | e] eqn:Hin;
    simpl; [| discriminate].
  destruct (N.ltb_spec (g - fee) gin) as [Hlt | Hin_paid]; simpl;
    [discriminate |].
  destruct (calculate_gas_extend_memory (extend_memory mem s1 z1) s2 z2)
    as [gout | e] eqn:Hout; simpl; [| discriminate].
  destruct (N.ltb_spec (g - fee - gin) gout) as [Hlt | Hout_paid]; simpl;
    [discriminate |].
  intros _. exists gas, aw, v, s1, z1, s2, z2, rest, fee, gin, gout.
  split; [reflexivity |]. by constructor.
Qed.

Lemma create_inversion evm evm' :
  create evm = (Ok tt, evm') ->
  exists endowment start size rest extend_cost,
    stack evm = endowment :: start :: size :: rest
    /\ CreateCharged evm start size extend_cost.
Proof.
  destruct evm as [pc0 stk mem g en run msg out].
  unfold create; unfold_frame_monad.
  destruct stk as [| endowment [| start [| size rest]]];
    simpl; try discriminate.
  destruct (calculate_gas_extend_memory mem start size) as [c | e] eqn:Hext;
    simpl; [| discriminate].
  destruct (N.leb_spec (GAS_CREATE + c) U256_MAX_VALUE) as [Hword | Hword];
    simpl; [| discriminate].
  destruct (N.ltb_spec g (GAS_CREATE + c)) as [Hlt | Hpaid]; simpl;
    [discriminate |].
  intros _. exists endowment, start, size, rest, c.
  split; [reflexivity |]. by constructor.
Qed.

Lemma call_resume_inversion frame out_start out_size r st evm' :
  call_resume frame out_start out_size (r, st) = (Ok tt, evm') ->
  exists child_evm,
    r = Ok child_evm
    /\ evm' = merged_frame frame child_evm st out_start out_size.
Proof.
  destruct frame as [pc0 stk mem g en run msg out].
  destruct r as [child_evm | e]; [| discriminate].
  unfold call_resume, merged_frame. unfold_frame_monad. simpl.
  destruct (N.of_nat (length (output child_evm)) <=? U256_MAX_VALUE);
    simpl; [| discriminate].
  destruct (g + gas_left child_evm <=? U256_MAX_VALUE); simpl;
    [| discriminate].
  intros [= <-]. by exists child_evm.
Qed.

Lemma add_gas_inversion amount evm evm' :
  add_gas amount evm = (Ok tt, evm') ->
  evm' = set_gas_left (gas_left evm + amount) evm.
Proof.
  unfold add_gas, U256_add, U256_new.
  destruct (gas_left evm + amount <=? U256_MAX_VALUE); [| discriminate].
  by intros [= <-].
Qed.

Lemma create_resume_inversion suspended r st evm' :
  create_resume suspended (r, st) = (Ok tt, evm') ->
  exists child_evm,
    r = Ok child_evm
    /\ (length (current_target (message child_evm)) <= 32)%nat
    /\ evm' = set_gas_left (gas_left child_evm)
                (set_stack
                   (from_be_bytes (current_target (message child_evm))
                    :: stack suspended)
                   (set_state st suspended)).
Proof.
  destruct suspended as [pc0 stk mem g en run msg out].
  destruct r as [child_evm | e]; [| discriminate].
  unfold create_resume, U256_from_be_bytes. unfold_frame_monad. simpl.
  destruct (Nat.leb_spec (length (current_target (message child_evm))) 32);
    simpl; [| discriminate].
  intros [= <-]. by exists child_evm.
Qed.

(** ** Memory after an extension *)

Lemma extend_memory_lookup_old (mem : Memory) (start_position size : N)
  (j : nat) :
  (j < length mem)%nat ->
  extend_memory mem start_position size !! j = mem !! j.
Proof.
  intros Hj. destruct (extend_memory_grows mem start_position size) as [k ->].
  by apply lookup_app_l.
Qed.

Lemma extend_memory_lookup_new (mem : Memory) (start_position size : N)
  (j : nat) :
  (length mem <= j < length (extend_memory mem start_position size))%nat ->
  extend_memory mem start_position size !! j = Some x00.
Proof.
  destruct (extend_memory_grows mem start_position size) as [k ->].
  rewrite length_app, length_replicate. intros Hj.
  rewrite lookup_app_r by lia. apply lookup_replicate_2. lia.
Qed.

End Paths.

(** ** What the handlers do on every path *)

Section EveryPath.
Context {G : GasSchedule} {I : Interpreter} {A : AddressDerivation}.


(** X1.  A CALL or CALLCODE on a frame with fewer than seven words on its
    stack raises [StackUnderflowError] before anything is charged: gas,
    memory and world state are untouched, no interpreter is involved, and
    the words that were there are gone. *)
Theorem call_stack_underflow op evm :
  (length (stack evm) < 7)%nat ->
  forall I' : Interpreter,
    @run_call G I' op evm = (Raise StackUnderflowError, set_stack [] evm).
Proof.
  intros Hlen I'. rewrite (run_call_eq (H0 := I')).
  by apply (call_with_underflow (I := I')).
Qed.

(** X2.  CREATE with fewer than three words and RETURN with fewer than two
    raise [StackUnderflowError] before anything is charged, leaving the
    frame as it was but for an empty stack. *)
Theorem create_return_stack_underflow evm :
  ((length (stack evm) < 3)%nat ->
   forall (I' : Interpreter) (A' : AddressDerivation),
     @create G I' A' evm = (Raise StackUnderflowError, set_stack [] evm))
  /\ ((length (stack evm) < 2)%nat ->
      return_ evm = (Raise StackUnderflowError, set_stack [] evm)).
Proof.
  split.
  - intros Hlen I' A'. by apply (create_underflow (I := I') (A := A')).
  - by apply return_underflow.
Qed.

(** X3.  The three charges of CALL and CALLCODE are made one after the
    other, each all or nothing, and an earlier one is not given back when a
    later one fails.  If the call fee cannot be paid nothing is charged; if
    the fee for the input region cannot be paid the call fee stays charged
    and the memory is not extended; if the fee for the output region cannot
    be paid the call fee and the input fee stay charged and the memory stays
    extended over the input region only.  Each time [OutOfGasError] comes
    out and no interpreter is involved. *)
Theorem call_out_of_gas_keeps_earlier_charges op evm
  gas address_word value in_start in_size out_start out_size rest
  call_gas_fee :
  let to :=
    call_target op (to_address address_word) (current_target (message evm)) in
  stack evm = gas :: address_word :: value :: in_start :: in_size
              :: out_start :: out_size :: rest ->
  calculate_call_gas_cost (state (env evm)) gas to value = Ok call_gas_fee ->
  gas + calculate_message_call_gas_stipend value <= U256_MAX_VALUE ->
  (gas_left evm < call_gas_fee ->
   forall I' : Interpreter,
     @run_call G I' op evm = (Raise OutOfGasError, set_stack rest evm))
  /\ (forall gas_input_memory,
        call_gas_fee <= gas_left evm ->
        calculate_gas_extend_memory (memory evm) in_start in_size
        = Ok gas_input_memory ->
        gas_left evm - call_gas_fee < gas_input_memory ->
        forall I' : Interpreter,
          @run_call G I' op evm
          = (Raise OutOfGasError,
             set_gas_left (gas_left evm - call_gas_fee)
               (set_stack rest evm)))
  /\ (forall gas_input_memory gas_output_memory,
        call_gas_fee <= gas_left evm ->
        calculate_gas_extend_memory (memory evm) in_start in_size
        = Ok gas_input_memory ->
        gas_input_memory <= gas_left evm - call_gas_fee ->
        calculate_gas_extend_memory
          (extend_memory (memory evm) in_start in_size) out_start out_size
        = Ok gas_output_memory ->
        gas_left evm - call_gas_fee - gas_input_memory < gas_output_memory ->
        forall I' : Interpreter,
          @run_call G I' op evm
          = (Raise OutOfGasError,
             set_memory (extend_memory (memory evm) in_start in_size)
               (set_gas_left
                  (gas_left evm - call_gas_fee - gas_input_memory)
                  (set_stack rest evm)))).
Proof.
  intros to Hstack Hfee Hword. subst to.
  rewrite <- choose_choice_of in Hfee.
  assert (Hpaths := fun I' =>
            call_with_out_of_gas (I := I') (choice_of op) PoppedAddress
              (choice_of op) evm gas address_word value in_start in_size
              out_start out_size rest call_gas_fee Hstack Hfee Hword).
  split; [| split].
  - intros Hlt I'. rewrite (run_call_eq (H0 := I')).
    by apply (proj1 (Hpaths I')).
  - intros gin Hpaid Hin Hlt I'. rewrite (run_call_eq (H0 := I')).
    by apply (proj1 (proj2 (Hpaths I')) gin).
  - intros gin gout Hpaid Hin Hin_paid Hout Hlt I'.
    rewrite (run_call_eq (H0 := I')).
    by apply (proj2 (proj2 (Hpaths I')) gin gout).
Qed.

(** X4.  A CREATE that cannot pay the creation fee plus the memory fee
    raises [OutOfGasError] with its gas, its memory and the world state as
    they were: no nonce is incremented, nothing is pushed, no interpreter is
    involved. *)
Theorem create_out_of_gas evm endowment start size rest extend_cost :
  stack evm = endowment :: start :: size :: rest ->
  calculate_gas_extend_memory (memory evm) start size = Ok extend_cost ->
  GAS_CREATE + extend_cost <= U256_MAX_VALUE ->
  gas_left evm < GAS_CREATE + extend_cost ->
  forall (I' : Interpreter) (A' : AddressDerivation),
    @create G I' A' evm = (Raise OutOfGasError, set_stack rest evm).
Proof.
  intros Hstack Hext Hword Hlt I' A'.
  by apply (create_out_of_gas_path (I := I') (A := A')
              evm endowment start size rest extend_cost).
Qed.

(** X5.  A RETURN that raises has changed nothing but the stack: gas,
    memory, output, [running] and the rest of the frame are as before, and
    the stack has lost at most its two top words. *)
Theorem return_failure_touches_only_the_stack evm e evm' :
  return_ evm = (Raise e, evm') ->
  evm' = set_stack (stack evm') evm
  /\ exists k : nat, (k <= 2)%nat /\ stack evm' = drop k (stack evm).
Proof.
  destruct evm as [pc0 stk mem g en run msg out].
  unfold return_. unfold_frame_monad.
  destruct stk as [| start [| size rest]]; simpl.
  - intros [= <- <-]. split; [reflexivity |]. exists 0%nat. auto.
  - intros [= <- <-]. split; [reflexivity |]. exists 1%nat. auto.
  - assert (Hdone : forall r : Result unit * Evm,
              r = (Raise e, evm') ->
              r.2 = {| pc := pc0; stack := rest; memory := mem; gas_left := g;
                       env := en; running := run; message := msg;
                       output := out |} ->
              evm' = set_stack (stack evm')
                       {| pc := pc0; stack := start :: size :: rest;
                          memory := mem; gas_left := g; env := en;
                          running := run; message := msg; output := out |}
              /\ exists k : nat,
                   (k <= 2)%nat
                   /\ stack evm' = drop k (start :: size :: rest)).
    { intros r -> Hr. simpl in Hr. subst evm'. split; [reflexivity |].
      exists 2%nat. auto. }
    destruct (calculate_gas_extend_memory mem start size) as [c | e0];
      simpl; [| intros Hr; by apply (Hdone _ Hr)].
    destruct (GAS_ZERO + c <=? U256_MAX_VALUE); simpl;
      [| intros Hr; by apply (Hdone _ Hr)].
    destruct (g <? GAS_ZERO + c); simpl;
      [intros Hr; by apply (Hdone _ Hr) | discriminate].
Qed.

(** X6.  CALL and CALLCODE catch nothing: an exception raised by the
    interpreter comes out unchanged.  The frame it leaves has lost the seven
    arguments and got no status word, keeps the memory extended and the
    three fees charged - [message_call_gas_fee] is not given back - and
    holds the world state as the interpreter left it. *)
Theorem call_lets_interpreter_failure_through op evm
  gas address_word value in_start in_size out_start out_size rest
  call_gas_fee gas_input_memory gas_output_memory e st :
  let own := current_target (message evm) in
  let popped := to_address address_word in
  let to := call_target op popped own in
  let message_call_gas_fee :=
    gas + calculate_message_call_gas_stipend value in
  let frame := charged_frame evm rest in_start in_size out_start out_size
                 call_gas_fee gas_input_memory gas_output_memory in
  stack evm = gas :: address_word :: value :: in_start :: in_size
              :: out_start :: out_size :: rest ->
  CallCharged to evm gas value in_start in_size out_start out_size
    call_gas_fee gas_input_memory gas_output_memory ->
  value <= balance (get_account (state (env evm)) own) ->
  depth (message evm) + 1 <= STACK_DEPTH_LIMIT ->
  process_message
    (call_child_message frame to popped message_call_gas_fee value
       in_start in_size)
    (env evm) = (Raise e, st) ->
  run_call op evm = (Raise e, set_state st frame)
  /\ stack (set_state st frame) = rest
  /\ gas_left (set_state st frame)
     = gas_left evm - call_gas_fee - gas_input_memory - gas_output_memory
  /\ state (env (set_state st frame)) = st.
Proof.
  intros own popped to message_call_gas_fee frame
    Hstack Hc Hbal Hdepth Hchild.
  split; [| by destruct evm].
  rewrite run_call_eq.
  rewrite (call_with_recursion _ _ _ evm
             gas address_word value in_start in_size out_start out_size
             rest call_gas_fee gas_input_memory gas_output_memory Hstack)
    by (rewrite ?choose_choice_of; auto).
  rewrite choose_choice_of. unfold choose.
  subst own popped to message_call_gas_fee frame.
  rewrite Hchild. reflexivity.
Qed.

(** X7.  Every CALL or CALLCODE that returns has replaced its seven
    arguments by one status word.  The word is 0 exactly when the call
    failed locally - too small a balance of the own account or too deep a
    call - and then the world state is untouched; otherwise it is 1, for
    whatever child frame the interpreter returned, and the world state is
    the one the interpreter left. *)
Theorem call_status_word op evm evm' :
  run_call op evm = (Ok tt, evm') ->
  exists gas address_word sent in_start in_size out_start out_size rest,
    let own := current_target (message evm) in
    stack evm = gas :: address_word :: sent :: in_start :: in_size
                :: out_start :: out_size :: rest
    /\ ((stack evm' = 0 :: rest
         /\ (balance (get_account (state (env evm)) own) < sent
             \/ STACK_DEPTH_LIMIT < depth (message evm) + 1)
         /\ state (env evm') = state (env evm))
        \/ (stack evm' = 1 :: rest
            /\ sent <= balance (get_account (state (env evm)) own)
            /\ depth (message evm) + 1 <= STACK_DEPTH_LIMIT
            /\ exists child_message child_evm,
                 process_message child_message (env evm)
                 = (Ok child_evm, state (env evm'))
                 /\ value child_message = sent
                 /\ target child_message
                    = call_target op (to_address address_word) own)).
Proof.
  intros Hrun. rewrite run_call_eq in Hrun.
  destruct (call_with_inversion _ _ _ _ _ Hrun)
    as (gas & aw & v & s1 & z1 & s2 & z2 & rest & fee & gin & gout
        & Hstack & Hc).
  exists gas, aw, v, s1, z1, s2, z2, rest. split; [exact Hstack |].
  assert (Hlocal :
            balance (get_account (state (env evm))
                       (current_target (message evm))) < v
            \/ STACK_DEPTH_LIMIT < depth (message evm) + 1 ->
            stack evm' = 0 :: rest /\ state (env evm') = state (env evm)).
  { intros Hfail.
    rewrite (call_with_local_failure _ _ _ evm gas aw v s1 z1 s2 z2 rest
               fee gin gout Hstack Hc Hfail) in Hrun.
    apply add_gas_inversion in Hrun. subst evm'. by destruct evm. }
  destruct (N.ltb_spec (balance (get_account (state (env evm))
                                   (current_target (message evm)))) v)
    as [Hbal | Hbal]; [left; split; [| split]; [apply Hlocal | | apply Hlocal];
                       auto |].
  destruct (N.ltb_spec STACK_DEPTH_LIMIT (depth (message evm) + 1))
    as [Hdepth | Hdepth];
    [left; split; [| split]; [apply Hlocal | | apply Hlocal]; auto |].
  right.
  rewrite (call_with_recursion _ _ _ evm gas aw v s1 z1 s2 z2 rest
             fee gin gout Hstack Hc Hbal Hdepth) in Hrun.
  match type of Hrun with
  | call_resume _ _ _ (process_message ?m ?e) = _ =>
      destruct (process_message m e) as [r st] eqn:Hchild;
      apply call_resume_inversion in Hrun as (child_evm & -> & ->);
      split; [by destruct evm |]; split; [exact Hbal |];
      split; [exact Hdepth |]; exists m, child_evm
  end.
  rewrite Hchild. rewrite choose_choice_of.
  split; [by destruct evm |]. split; reflexivity.
Qed.

(** X8.  No handler moves the program counter, replaces the message of the
    frame or changes the origin of the transaction, on any path; RETURN
    leaves the whole environment, world state included, as it was. *)
Theorem handlers_keep_frame_identity evm :
  same_identity evm (create evm).2
  /\ same_identity evm (call evm).2
  /\ same_identity evm (callcode evm).2
  /\ same_identity evm (return_ evm).2
  /\ env (return_ evm).2 = env evm.
Proof.
  assert (Htrans : forall a b c,
            same_identity a b -> same_identity b c -> same_identity a c).
  { intros a b c (? & ? & ?) (? & ? & ?). repeat split; congruence. }
  split; [| split; [| split; [| split]]].
  - apply preserves_create; unfold same_identity; auto.
  - rewrite call_eq. apply preserves_call_with; unfold same_identity; auto.
  - rewrite callcode_eq.
    apply preserves_call_with; unfold same_identity; auto.
  - apply preserves_return; unfold same_identity; auto.
  - apply (preserves_return (fun a b => env b = env a)); auto.
    intros a b c. congruence.
Qed.

(** X9.  When the output region has size zero, or the child returned no
    output, the merge of CALL and CALLCODE writes nothing: the memory of
    the parent is the twice-extended one, byte for byte. *)
Theorem call_merge_copies_nothing op evm
  gas address_word sent in_start in_size out_start out_size rest
  call_gas_fee gas_input_memory gas_output_memory child_evm st :
  let own := current_target (message evm) in
  let popped := to_address address_word in
  let to := call_target op popped own in
  let message_call_gas_fee :=
    gas + calculate_message_call_gas_stipend sent in
  let frame := charged_frame evm rest in_start in_size out_start out_size
                 call_gas_fee gas_input_memory gas_output_memory in
  stack evm = gas :: address_word :: sent :: in_start :: in_size
              :: out_start :: out_size :: rest ->
  CallCharged to evm gas sent in_start in_size out_start out_size
    call_gas_fee gas_input_memory gas_output_memory ->
  sent <= balance (get_account (state (env evm)) own) ->
  depth (message evm) + 1 <= STACK_DEPTH_LIMIT ->
  process_message
    (call_child_message frame to popped message_call_gas_fee sent
       in_start in_size)
    (env evm) = (Ok child_evm, st) ->
  N.of_nat (length (output child_evm)) <= U256_MAX_VALUE ->
  gas_left frame + gas_left child_evm <= U256_MAX_VALUE ->
  out_size = 0 \/ output child_evm = [] ->
  exists evm',
    run_call op evm = (Ok tt, evm')
    /\ memory evm'
       = extend_memory (extend_memory (memory evm) in_start in_size)
           out_start out_size.
Proof.
  intros own popped to message_call_gas_fee frame
    Hstack Hc Hbal Hdepth Hchild Hlen Hgas Hnothing.
  exists (merged_frame frame child_evm st out_start out_size). split.
  - rewrite run_call_eq.
    rewrite (call_with_recursion _ _ _ evm
               gas address_word sent in_start in_size out_start out_size
               rest call_gas_fee gas_input_memory gas_output_memory Hstack)
      by (rewrite ?choose_choice_of; auto).
    rewrite choose_choice_of. unfold choose.
    subst own popped to message_call_gas_fee frame.
    rewrite Hchild. by apply call_resume_returns.
  - assert (Hwritten :
              take (N.to_nat
                      (N.min out_size (N.of_nat (length (output child_evm)))))
                (output child_evm) = []).
    { destruct Hnothing as [-> | ->]; [by rewrite N.min_0_l | apply take_nil]. }
    destruct evm as [pc0 stk mem g en run msg out]. simpl.
    by rewrite Hwritten.
Qed.

(** X10.  The call data that CALL and CALLCODE hand to the child is the
    input region of the parent's memory, [memory_input_size] bytes long:
    the bytes the memory held there before the call, and zeros for the part
    of the region that lay beyond the memory. *)
Theorem call_data_is_input_region op evm
  gas address_word sent in_start in_size out_start out_size rest
  call_gas_fee gas_input_memory gas_output_memory :
  let own := current_target (message evm) in
  let popped := to_address address_word in
  let to := call_target op popped own in
  let message_call_gas_fee :=
    gas + calculate_message_call_gas_stipend sent in
  let frame := charged_frame evm rest in_start in_size out_start out_size
                 call_gas_fee gas_input_memory gas_output_memory in
  let child_message :=
    call_child_message frame to popped message_call_gas_fee sent
      in_start in_size in
  stack evm = gas :: address_word :: sent :: in_start :: in_size
              :: out_start :: out_size :: rest ->
  CallCharged to evm gas sent in_start in_size out_start out_size
    call_gas_fee gas_input_memory gas_output_memory ->
  sent <= balance (get_account (state (env evm)) own) ->
  depth (message evm) + 1 <= STACK_DEPTH_LIMIT ->
  run_call op evm
  = call_resume frame out_start out_size
      (process_message child_message (env evm))
  /\ length (data child_message) = N.to_nat in_size
  /\ (forall i : nat,
        (i < N.to_nat in_size)%nat ->
        (N.to_nat in_start + i < length (memory evm))%nat ->
        data child_message !! i = memory evm !! (N.to_nat in_start + i)%nat)
  /\ (forall i : nat,
        (i < N.to_nat in_size)%nat ->
        (length (memory evm) <= N.to_nat in_start + i)%nat ->
        data child_message !! i = Some x00).
Proof.
  intros own popped to message_call_gas_fee frame child_message
    Hstack Hc Hbal Hdepth.
  split.
  { rewrite run_call_eq.
    rewrite (call_with_recursion _ _ _ evm
               gas address_word sent in_start in_size out_start out_size
               rest call_gas_fee gas_input_memory gas_output_memory Hstack)
      by (rewrite ?choose_choice_of; auto).
    by rewrite choose_choice_of. }
  assert (Hdata : data child_message
                  = memory_read_bytes
                      (extend_memory
                         (extend_memory (memory evm) in_start in_size)
                         out_start out_size) in_start in_size)
    by by destruct evm.
  rewrite Hdata. clear Hdata.
  set (mem := memory evm). set (ext1 := extend_memory mem in_start in_size).
  pose proof (extend_memory_length mem in_start in_size) as Hlen1.
  pose proof (extend_memory_length ext1 out_start out_size) as Hlen2.
  fold ext1 in Hlen1.
  assert (Hcovered : in_size <> 0 ->
                     in_start + in_size <= N.of_nat (length ext1))
    by apply extend_memory_covers.
  split; [| split].
  - destruct (N.eqb_spec in_size 0) as [-> | Hsize]; [done |].
    apply memory_read_bytes_length. specialize (Hcovered Hsize). lia.
  - intros i Hi Hold. rewrite memory_read_bytes_lookup by done.
    rewrite extend_memory_lookup_old by lia.
    by apply extend_memory_lookup_old.
  - intros i Hi Hnew. rewrite memory_read_bytes_lookup by done.
    assert (Hsize : in_size <> 0) by lia. specialize (Hcovered Hsize).
    rewrite extend_memory_lookup_old by lia.
    apply extend_memory_lookup_new. fold ext1. lia.
Qed.

(** X11.  The code that CREATE hands to the creation is the popped memory
    region, [memory_size] bytes long: the bytes the memory held there, and
    zeros for the part of the region that lay beyond the memory. *)
Theorem create_code_is_memory_region evm
  endowment start size rest extend_cost :
  let frame := create_charged_frame evm rest start size extend_cost in
  let child_message := create_child_message frame endowment start size in
  stack evm = endowment :: start :: size :: rest ->
  CreateCharged evm start size extend_cost ->
  endowment <= balance (get_account (state (env evm)) (origin (env evm))) ->
  depth (message evm) + 1 <= STACK_DEPTH_LIMIT ->
  create evm
  = create_resume (create_suspended_frame frame)
      (process_create_message child_message
         (env (create_suspended_frame frame)))
  /\ length (msg_code child_message) = N.to_nat size
  /\ (forall i : nat,
        (i < N.to_nat size)%nat ->
        (N.to_nat start + i < length (memory evm))%nat ->
        msg_code child_message !! i = memory evm !! (N.to_nat start + i)%nat)
  /\ (forall i : nat,
        (i < N.to_nat size)%nat ->
        (length (memory evm) <= N.to_nat start + i)%nat ->
        msg_code child_message !! i = Some x00).
Proof.
  intros frame child_message Hstack Hc Hbal Hdepth.
  split; [by apply create_recursion |].
  assert (Hcode : msg_code child_message
                  = memory_read_bytes
                      (extend_memory (memory evm) start size) start size)
    by by destruct evm.
  rewrite Hcode. clear Hcode.
  assert (Hcovered : size <> 0 ->
                     start + size
                     <= N.of_nat
                          (length (extend_memory (memory evm) start size)))
    by apply extend_memory_covers.
  split; [| split].
  - destruct (N.eqb_spec size 0) as [-> | Hsize]; [done |].
    apply memory_read_bytes_length. auto.
  - intros i Hi Hold. rewrite memory_read_bytes_lookup by done.
    by apply extend_memory_lookup_old.
  - intros i Hi Hnew. rewrite memory_read_bytes_lookup by done.
    assert (Hsize : size <> 0) by lia. specialize (Hcovered Hsize).
    apply extend_memory_lookup_new. lia.
Qed.

(** X12.  No handler ever shrinks the memory of the frame, on any path. *)
Theorem handlers_never_shrink_memory evm :
  memory_not_shrunk evm (create evm).2
  /\ memory_not_shrunk evm (call evm).2
  /\ memory_not_shrunk evm (callcode evm).2
  /\ memory_not_shrunk evm (return_ evm).2.
Proof.
  assert (Hext : forall start size e,
            memory_not_shrunk e
              (set_memory (extend_memory (memory e) start size) e)).
  { intros start size e. unfold memory_not_shrunk.
    destruct e. apply extend_memory_length. }
  assert (Hwrite : forall start v e,
            memory_not_shrunk e
              (set_memory (memory_write (memory e) start v) e)).
  { intros start v e. unfold memory_not_shrunk.
    destruct e. simpl. by rewrite memory_write_length. }
  assert (Htrans : forall a b c,
            memory_not_shrunk a b -> memory_not_shrunk b c ->
            memory_not_shrunk a c).
  { unfold memory_not_shrunk. intros a b c. lia. }
  assert (Hset : forall a b,
            memory b = memory a -> memory_not_shrunk a b).
  { unfold memory_not_shrunk. by intros a b ->. }
  split; [| split; [| split]].
  - apply preserves_create; auto; intros; by apply Hset.
  - rewrite call_eq. apply preserves_call_with; auto; intros; by apply Hset.
  - rewrite callcode_eq.
    apply preserves_call_with; auto; intros; by apply Hset.
  - apply preserves_return; auto; intros; by apply Hset.
Qed.

(** X13.  A CREATE that returns went one of two ways.  Either it failed
    locally - the origin holds less than the endowment or the call is too
    deep - and pushed 0, leaving world state and remaining gas as the
    charge left them; or the interpreter returned a child frame, and CREATE
    pushed the address found in the message of that frame, took over the
    child's [gas_left] and left the world state to the interpreter. *)
Theorem create_returns_in_two_ways evm evm' :
  create evm = (Ok tt, evm') ->
  exists endowment start size rest extend_cost,
    let frame := create_charged_frame evm rest start size extend_cost in
    stack evm = endowment :: start :: size :: rest
    /\ CreateCharged evm start size extend_cost
    /\ ((stack evm' = 0 :: rest
         /\ (balance (get_account (state (env evm)) (origin (env evm)))
               < endowment
             \/ STACK_DEPTH_LIMIT < depth (message evm) + 1)
         /\ state (env evm') = state (env evm)
         /\ gas_left evm' = gas_left evm - (GAS_CREATE + extend_cost))
        \/ (endowment
              <= balance (get_account (state (env evm)) (origin (env evm)))
            /\ depth (message evm) + 1 <= STACK_DEPTH_LIMIT
            /\ exists child_evm,
                 process_create_message
                   (create_child_message frame endowment start size)
                   (env (create_suspended_frame frame))
                 = (Ok child_evm, state (env evm'))
                 /\ stack evm'
                    = from_be_bytes (current_target (message child_evm))
                      :: rest
                 /\ gas_left evm' = gas_left child_evm)).
Proof.
  intros Hrun.
  destruct (create_inversion _ _ Hrun)
    as (endowment & start & size & rest & c & Hstack & Hc).
  exists endowment, start, size, rest, c.
  split; [exact Hstack |]. split; [exact Hc |].
  assert (Hlocal :
            balance (get_account (state (env evm)) (origin (env evm)))
              < endowment
            \/ STACK_DEPTH_LIMIT < depth (message evm) + 1 ->
            stack evm' = 0 :: rest
            /\ state (env evm') = state (env evm)
            /\ gas_left evm' = gas_left evm - (GAS_CREATE + c)).
  { intros Hfail.
    rewrite (create_local_failure evm endowment start size rest c
               Hstack Hc Hfail) in Hrun.
    injection Hrun as <-. by destruct evm. }
  destruct (N.ltb_spec
              (balance (get_account (state (env evm)) (origin (env evm))))
              endowment) as [Hbal | Hbal];
    [left; split; [apply Hlocal | split; [| apply Hlocal]]; auto |].
  destruct (N.ltb_spec STACK_DEPTH_LIMIT (depth (message evm) + 1))
    as [Hdepth | Hdepth];
    [left; split; [apply Hlocal | split; [| apply Hlocal]]; auto |].
  right. split; [exact Hbal |]. split; [exact Hdepth |].
  rewrite (create_recursion evm endowment start size rest c
             Hstack Hc Hbal Hdepth) in Hrun.
  match type of Hrun with
  | create_resume _ (process_create_message ?m ?e) = _ =>
      destruct (process_create_message m e) as [r st] eqn:Hchild
  end.
  apply create_resume_inversion in Hrun as (child_evm & -> & Hlen & ->).
  exists child_evm. by destruct evm.
Qed.

(** X14.  Two creations in a row by the same account derive their
    addresses from consecutive nonces.  If the first CREATE goes through
    and the interpreter leaves the creator's nonce as it received it, a
    second CREATE run on the world state the first one left derives its
    address from the nonce after the one the first used, and hands over a
    world state in which the nonce has moved on once more. *)
Theorem sequential_creates_use_consecutive_nonces
  evm1 endowment1 start1 size1 rest1 extend_cost1 child_evm st
  evm2 endowment2 start2 size2 rest2 extend_cost2 :
  let creator := current_target (message evm1) in
  let n := nonce (get_account (state (env evm1)) creator) in
  let frame1 :=
    create_charged_frame evm1 rest1 start1 size1 extend_cost1 in
  let frame2 :=
    create_charged_frame evm2 rest2 start2 size2 extend_cost2 in
  let child_message1 :=
    create_child_message frame1 endowment1 start1 size1 in
  let child_message2 :=
    create_child_message frame2 endowment2 start2 size2 in
  stack evm1 = endowment1 :: start1 :: size1 :: rest1 ->
  CreateCharged evm1 start1 size1 extend_cost1 ->
  endowment1
    <= balance (get_account (state (env evm1)) (origin (env evm1))) ->
  depth (message evm1) + 1 <= STACK_DEPTH_LIMIT ->
  process_create_message child_message1
    (env (create_suspended_frame frame1)) = (Ok child_evm, st) ->
  nonce (get_account st creator) = n + 1 ->
  message evm2 = message evm1 ->
  env evm2 = env (create evm1).2 ->
  stack evm2 = endowment2 :: start2 :: size2 :: rest2 ->
  CreateCharged evm2 start2 size2 extend_cost2 ->
  endowment2
    <= balance (get_account (state (env evm2)) (origin (env evm2))) ->
  current_target child_message1 = compute_contract_address creator n
  /\ create evm2
     = create_resume (create_suspended_frame frame2)
         (process_create_message child_message2
            (env (create_suspended_frame frame2)))
  /\ current_target child_message2
     = compute_contract_address creator (n + 1)
  /\ nonce (get_account (state (env (create_suspended_frame frame2)))
              creator) = n + 2.
Proof.
  intros creator n frame1 frame2 child_message1 child_message2
    Hstack1 Hc1 Hbal1 Hdepth1 Hchild Hnonce Hmsg Henv Hstack2 Hc2 Hbal2.
  assert (Hstate : state (env evm2) = st).
  { rewrite Henv.
    rewrite (create_recursion evm1 endowment1 start1 size1 rest1
               extend_cost1 Hstack1 Hc1 Hbal1 Hdepth1).
    fold frame1 child_message1. rewrite Hchild.
    apply create_resume_state. }
  split; [by destruct evm1 |]. split.
  { apply create_recursion; auto. by rewrite Hmsg. }
  assert (Hcreator : current_target (message frame2) = creator)
    by (destruct evm2; simpl in *; by rewrite Hmsg).
  assert (Hframe : state (env frame2) = st) by by destruct evm2.
  split.
  - change (current_target child_message2)
      with (compute_contract_address (current_target (message frame2))
              (nonce (get_account (state (env frame2))
                        (current_target (message frame2))))).
    by rewrite Hcreator, Hframe, Hnonce.
  - assert (Hsuspended :
              state (env (create_suspended_frame frame2))
              = increment_nonce st creator).
    { unfold create_suspended_frame.
      rewrite <- Hcreator, <- Hframe. by destruct frame2. }
    rewrite Hsuspended, get_account_increment_nonce. simpl.
    rewrite Hnonce. lia.
Qed.

End EveryPath.

(** * Every path, on the sample world *)

Section PathWitnesses.
#[local] Existing Instance Sample.gas_table.
#[local] Existing Instance Sample.echo.
#[local] Existing Instance Sample.addresses.

Import Sample.

Ltac evaluate :=
  vm_compute;
  first [ reflexivity | discriminate | intro; discriminate
        | match goal with |- (_ <= _)%nat => lia | |- (_ < _)%nat => lia end ].

Lemma call_stack_underflow_witness :
  call (frame [1000; 11; 5] bob 0)
  = (Raise StackUnderflowError, set_stack [] (frame [1000; 11; 5] bob 0)).
Proof.
  exact (call_stack_underflow CALL (frame [1000; 11; 5] bob 0)
           ltac:(evaluate) echo).
Defined.

Lemma create_return_stack_underflow_witness :
  create (frame [5; 0] bob 0)
  = (Raise StackUnderflowError, set_stack [] (frame [5; 0] bob 0))
  /\ return_ (frame [5] bob 0)
     = (Raise StackUnderflowError, set_stack [] (frame [5] bob 0)).
Proof.
  split.
  - exact (proj1 (create_return_stack_underflow (G := gas_table)
                    (frame [5; 0] bob 0))
             ltac:(evaluate) echo addresses).
  - exact (proj2 (create_return_stack_underflow (G := gas_table)
                    (frame [5] bob 0))
             ltac:(evaluate)).
Defined.

Lemma call_out_of_gas_keeps_earlier_charges_witness :
  call (set_gas_left 10044 (paid_call 0))
  = (Raise OutOfGasError,
     set_memory (extend_memory [] 0 4)
       (set_gas_left 1 (set_stack [77] (paid_call 0)))).
Proof.
  destruct (call_out_of_gas_keeps_earlier_charges (G := gas_table) CALL
              (set_gas_left 10044 (paid_call 0))
              1000 11 2 0 4 32 2 [77] 10040
              eq_refl ltac:(evaluate) ltac:(evaluate))
    as (_ & _ & Houtput).
  exact (Houtput 3 3 ltac:(evaluate) ltac:(evaluate) ltac:(evaluate)
           ltac:(evaluate) ltac:(evaluate) echo).
Defined.

Lemma create_out_of_gas_witness :
  create (set_gas_left 100 (creation 5 0))
  = (Raise OutOfGasError, set_stack [77] (set_gas_left 100 (creation 5 0))).
Proof.
  exact (create_out_of_gas (G := gas_table)
           (set_gas_left 100 (creation 5 0)) 5 0 4 [77] 3
           eq_refl ltac:(evaluate) ltac:(evaluate) ltac:(evaluate)
           echo addresses).
Defined.

Lemma return_failure_touches_only_the_stack_witness :
  exists k : nat,
    (k <= 2)%nat /\ [77] = drop k (stack (set_gas_left 1 returning)).
Proof.
  assert (Hrun : return_ (set_gas_left 1 returning)
                 = (Raise OutOfGasError,
                    set_stack [77] (set_gas_left 1 returning)))
    by evaluate.
  destruct (return_failure_touches_only_the_stack _ _ _ Hrun)
    as (_ & k & Hk & Hdrop).
  exists k. split; [exact Hk | exact Hdrop].
Defined.

Lemma call_lets_interpreter_failure_through_witness :
  exists evm',
    @call gas_table failing (paid_call 0) = (Raise (InterpreterError 0), evm')
    /\ stack evm' = [77]
    /\ gas_left evm' = 89954.
Proof.
  destruct (call_lets_interpreter_failure_through (G := gas_table)
              (I := failing) CALL (paid_call 0)
              1000 11 2 0 4 32 2 [77] 10040 3 3 (InterpreterError 0) world
              eq_refl (paid_call_charged 0) ltac:(evaluate) ltac:(evaluate)
              eq_refl)
    as (Hrun & Hstack & Hgas & _).
  eexists. split; [exact Hrun |]. split; [exact Hstack |].
  rewrite Hgas. evaluate.
Defined.

Lemma call_status_word_witness :
  exists rest, stack (call (paid_call 0)).2 = 1 :: rest.
Proof.
  assert (Hrun : run_call CALL (paid_call 0)
                 = (Ok tt, (call (paid_call 0)).2)) by evaluate.
  destruct (call_status_word CALL (paid_call 0) _ Hrun)
    as (gas & aw & v & s1 & z1 & s2 & z2 & rest & Hstack & Hword).
  exists rest. destruct Hword as [(_ & Hfail & _) | (Hone & _)];
    [| exact Hone].
  exfalso. injection Hstack as <- <- <- <- <- <- <- <-.
  destruct Hfail as [Hfail | Hfail]; revert Hfail; evaluate.
Defined.

Lemma call_merge_copies_nothing_witness :
  exists evm',
    call (frame [1000; 11; 2; 0; 0; 32; 2; 77] bob 0) = (Ok tt, evm')
    /\ memory evm' = replicate 64 x00.
Proof.
  edestruct (call_merge_copies_nothing (G := gas_table) (I := echo) CALL
               (frame [1000; 11; 2; 0; 0; 32; 2; 77] bob 0)
               1000 11 2 0 0 32 2 [77] 10040 0 6)
    as (evm' & Hrun & Hmem);
    [ reflexivity | constructor; evaluate | evaluate | evaluate
    | reflexivity | evaluate | evaluate | right; reflexivity | ].
  exists evm'. split; [exact Hrun |]. rewrite Hmem. evaluate.
Defined.

Lemma call_data_is_input_region_witness :
  exists child_message,
    call (paid_call 0)
    = call_resume (charged_frame (paid_call 0) [77] 0 4 32 2 10040 3 3) 32 2
        (process_message child_message (env (paid_call 0)))
    /\ data child_message = [x00; x00; x00; x00].
Proof.
  destruct (call_data_is_input_region (G := gas_table) (I := echo) CALL
              (paid_call 0) 1000 11 2 0 4 32 2 [77] 10040 3 3
              eq_refl (paid_call_charged 0) ltac:(evaluate) ltac:(evaluate))
    as (Hrun & _).
  eexists. split; [exact Hrun | evaluate].
Defined.

Lemma create_code_is_memory_region_witness :
  length (msg_code
            (create_child_message
               (create_charged_frame (creation 5 0) [77] 0 4 3) 5 0 4))
  = 4%nat.
Proof.
  exact (proj1 (proj2
           (create_code_is_memory_region (G := gas_table) (I := echo)
              (A := addresses) (creation 5 0) 5 0 4 [77] 3
              eq_refl (creation_charged 5 0)
              ltac:(evaluate) ltac:(evaluate)))).
Defined.

Lemma create_returns_in_two_ways_witness :
  exists rest word, stack (create (creation 5 0)).2 = word :: rest.
Proof.
  assert (Hrun : create (creation 5 0)
                 = (Ok tt, (create (creation 5 0)).2)) by evaluate.
  destruct (create_returns_in_two_ways (creation 5 0) _ Hrun)
    as (endowment & start & size & rest & c & _ & _ & Hways).
  destruct Hways as [(Hzero & _) | (_ & _ & child_evm & _ & Hword & _)];
    eauto.
Defined.

Lemma sequential_creates_use_consecutive_nonces_witness :
  let second := set_stack [5; 0; 4; 77] (create (creation 5 0)).2 in
  nonce (get_account
           (state (env (create_suspended_frame
                          (create_charged_frame second [77] 0 4 0))))
           bob) = 2.
Proof.
  intros second.
  edestruct (@sequential_creates_use_consecutive_nonces
               gas_table echo addresses)
    with (evm1 := creation 5 0) (endowment1 := 5) (start1 := 0)
         (size1 := 4) (rest1 := [77]) (extend_cost1 := 3)
         (evm2 := second) (endowment2 := 5) (start2 := 0)
         (size2 := 4) (rest2 := [77]) (extend_cost2 := 0)
    as (_ & _ & _ & Hnonce);
    [ reflexivity | exact (creation_charged 5 0) | evaluate | evaluate
    | reflexivity | evaluate | reflexivity | reflexivity | reflexivity
    | constructor; evaluate | evaluate | ].
  exact Hnonce.
Defined.

End PathWitnesses.
